(** * Play-by-play probability generator and CORS forwarder

    A shallow embedding of [src/preprocessing/generate_probabilities.py] and
    [src/proxy-server.py].

    The pandas table is a schema (the ordered column labels) together with
    its rows; a row maps a column label to a cell.  A cell is a missing value
    (NaN / None), a number or a string.  Numbers are rationals: every finite
    float is one, and the program only compares them with integer constants,
    tests them for equality and averages 0/1 indicators, so no rounding is
    involved in any decision the program takes.  Python exceptions are an
    explicit error result. *)

From Stdlib Require Import QArith Lqa String Ascii.
From stdpp Require Import gmap strings list sorting.

Close Scope Q_scope.
Open Scope string_scope.

(** ** Cells *)

Inductive value :=
  | VNull
  | VNum (q : Q)
  | VStr (s : string).

#[global] Instance Q_eq_dec : EqDecision Q.
Proof. solve_decision. Defined.

#[global] Instance value_eq_dec : EqDecision value.
Proof. solve_decision. Defined.

#[global] Instance value_inhabited : Inhabited value := populate VNull.

(** [pd.isna] / [Series.notna] on one cell. *)
Definition isna (v : value) : bool :=
  match v with VNull => true | _ => false end.

Definition notna (v : value) : bool := negb (isna v).

Definition is_str (v : value) : bool :=
  match v with VStr _ => true | _ => false end.

(** The float seen by a function applied to a numeric column: [None] is NaN. *)
Definition as_float (v : value) : option Q :=
  match v with VNum q => Some q | _ => None end.

(** Elementwise [==]: a missing value equals nothing, a number never equals a
    string. *)
Definition value_eqb (a b : value) : bool :=
  match a, b with
  | VNum x, VNum y => Qeq_bool x y
  | VStr x, VStr y => String.eqb x y
  | _, _ => false
  end.

(** [Series.isin(vals)] on one cell. *)
Definition isin (vals : list value) (v : value) : bool :=
  existsb (value_eqb v) vals.

(** The representative under which a cell is used as a group label: equal
    numbers give one label. *)
Definition canon (v : value) : value :=
  match v with VNum q => VNum (Qred q) | _ => v end.

(** ** Exceptions *)

Inductive exn :=
  | KeyError (column : string)
  | TypeError
  | FetchError (msg : string).

Inductive res (A : Type) :=
  | Ok (a : A)
  | Raise (e : exn).
Arguments Ok {A} a.
Arguments Raise {A} e.

#[global] Instance res_ret : MRet res := λ A a, Ok a.
#[global] Instance res_bind : MBind res := λ A B f m,
  match m with Ok a => f a | Raise e => Raise e end.
#[global] Instance res_fmap : FMap res := λ A B f m,
  match m with Ok a => Ok (f a) | Raise e => Raise e end.

Definition succeeded {A} (m : res A) : option A :=
  match m with Ok a => Some a | Raise _ => None end.

(** ** Bucketizers *)

(** [distance_bucket], the nested function of [calculate_league_rates] and,
    with the same text, of [calculate_team_rates]. *)
Definition distance_bucket (yards : option Q) : string :=
  match yards with
  | None => "medium"
  | Some y =>
      if Qle_bool y 3 then "short"
      else if Qle_bool y 6 then "medium"
      else if Qle_bool y 10 then "long"
      else "very_long"
  end.

(** [field_zone], the nested function of [calculate_field_position_impact]. *)
Definition field_zone (yardline_100 : option Q) : string :=
  match yardline_100 with
  | None => "mid_field"
  | Some y =>
      if Qle_bool y 10 then "red_zone"
      else if Qle_bool y 20 then "green_zone"
      else if Qle_bool y 50 then "mid_field"
      else "own_territory"
  end.

(** ** Tables *)

Record DataFrame := {
  columns : list string;
  rows : list (gmap string value)
}.

(** The cell of a row under a column label; the program reads a column only
    after the schema has been consulted ([require] below). *)
Definition cell (c : string) (r : gmap string value) : value :=
  default VNull (r !! c).

(** [c in df.columns] *)
Definition has_column (c : string) (df : DataFrame) : bool :=
  bool_decide (c ∈ columns df).

(** [len(df)] *)
Definition len (df : DataFrame) : nat := length (rows df).

(** [df[c]] raises [KeyError] when the label is not in the schema. *)
Definition require (c : string) (df : DataFrame) : res unit :=
  if has_column c df then Ok () else Raise (KeyError c).

Fixpoint require_all (cs : list string) (df : DataFrame) : res unit :=
  match cs with
  | [] => Ok ()
  | c :: cs => require c df;; require_all cs df
  end.

(** Ordering a cell against a number, or averaging a column, raises
    [TypeError] as soon as the column holds a string. *)
Definition numeric (c : string) (df : DataFrame) : res unit :=
  if existsb (λ r, is_str (cell c r)) (rows df) then Raise TypeError else Ok ().

Fixpoint numeric_all (cs : list string) (df : DataFrame) : res unit :=
  match cs with
  | [] => Ok ()
  | c :: cs => numeric c df;; numeric_all cs df
  end.

(** [df[c] = ...], in place: an existing column is overwritten where it
    stands, a new one is appended to the schema. *)
Definition assign (c : string) (f : gmap string value → value)
    (df : DataFrame) : DataFrame :=
  {| columns := if has_column c df then columns df else columns df ++ [c];
     rows := (λ r, <[c := f r]> r) <$> rows df |}.

(** [df[mask].copy()] *)
Definition select (mask : gmap string value → bool) (df : DataFrame) : DataFrame :=
  {| columns := columns df;
     rows := filter (λ r, mask r) (rows df) |}.

(** [df[dst] = df[src].apply(f)] for one of the two bucketizers. *)
Definition with_bucket (src dst : string) (f : option Q → string)
    (df : DataFrame) : DataFrame :=
  assign dst (λ r, VStr (f (as_float (cell src r)))) df.

Definition apply_bucket (src dst : string) (f : option Q → string)
    (df : DataFrame) : res DataFrame :=
  require src df;;
  numeric src df;;
  Ok (with_bucket src dst f df).

(** ** Group-by and aggregation *)

(** The order in which pandas lists group labels ([sort=True], the default
    of [groupby]): numbers by value, strings by code point, tuples
    lexicographically.  Numbers are put before strings. *)
Definition value_compare (a b : value) : comparison :=
  match a, b with
  | VNull, VNull => Eq
  | VNull, _ => Lt
  | _, VNull => Gt
  | VNum x, VNum y => (x ?= y)%Q
  | VNum _, VStr _ => Lt
  | VStr _, VNum _ => Gt
  | VStr x, VStr y => String.compare x y
  end.

Fixpoint label_compare (a b : list value) : comparison :=
  match a, b with
  | [], [] => Eq
  | [], _ :: _ => Lt
  | _ :: _, [] => Gt
  | x :: a, y :: b =>
      match value_compare x y with
      | Eq => label_compare a b
      | c => c
      end
  end.

Definition label_leb (a b : list value) : bool :=
  match label_compare a b with Gt => false | _ => true end.

Definition label_le (a b : list value) : Prop := label_leb a b.

#[global] Instance label_le_dec a b : Decision (label_le a b).
Proof. unfold label_le. apply _. Defined.

(** The label of a row under the grouping columns. *)
Definition group_label (keys : list string) (r : gmap string value) : list value :=
  (λ c, canon (cell c r)) <$> keys.

(** [df.groupby(keys)]: rows with a missing value in a grouping column are
    left out ([dropna=True]); one group per distinct label, labels in sorted
    order, rows of a group in table order. *)
Definition groupby (keys : list string) (df : DataFrame)
    : list (list value * list (gmap string value)) :=
  let rs := filter (λ r, forallb notna (group_label keys r)) (rows df) in
  (λ k, (k, filter (λ r, group_label keys r = k) rs))
    <$> merge_sort label_le (remove_dups (group_label keys <$> rs)).

(** What [.agg] checks before it aggregates: grouping and aggregated columns
    exist, averaged columns hold no string. *)
Definition agg_ready (keys aggregated averaged : list string)
    (df : DataFrame) : res unit :=
  require_all keys df;;
  require_all aggregated df;;
  numeric_all averaged df.

Definition Qsum (xs : list Q) : Q := foldr Qplus 0%Q xs.

(** ['mean']: the mean of the non-missing values, NaN when there is none. *)
Definition agg_mean (c : string) (g : list (gmap string value)) : option Q :=
  match omap (λ r, as_float (cell c r)) g with
  | [] => None
  | xs => Some (Qred (Qsum xs / inject_Z (Z.of_nat (length xs))))
  end.

(** ['count']: the number of non-missing values. *)
Definition agg_count (c : string) (g : list (gmap string value)) : nat :=
  length (filter (λ r, notna (cell c r)) g).

(** ['first']: the first non-missing value, NaN when there is none. *)
Definition agg_first (c : string) (g : list (gmap string value)) : value :=
  default VNull (head (filter (λ v, notna v) (cell c <$> g))).

(** ** The four calculators *)

Record LeagueRate := {
  lr_down : value;
  lr_distance : value;
  lr_play_type : value;
  lr_success_rate : option Q;
  lr_sample_size : nat
}.

Record TeamRate := {
  tr_team : value;
  tr_distance : value;
  tr_play_type : value;
  tr_success_rate : option Q;
  tr_sample_size : nat
}.

Record FieldRate := {
  fr_zone : value;
  fr_play_type : value;
  fr_conversion_rate : option Q;
  fr_td_rate : option Q;
  fr_sample_size : nat
}.

(** One output row per group: [.agg({...}).reset_index()] followed by the
    renaming of the columns. *)
Definition league_record (group : list value * list (gmap string value))
    : LeagueRate :=
  let '(k, g) := group in
  {| lr_down := k !!! 0%nat;
     lr_distance := k !!! 1%nat;
     lr_play_type := k !!! 2%nat;
     lr_success_rate := agg_mean "first_down_converted" g;
     lr_sample_size := agg_count "play_id" g |}.

Definition team_record (group : list value * list (gmap string value))
    : TeamRate :=
  let '(k, g) := group in
  {| tr_team := k !!! 0%nat;
     tr_distance := k !!! 1%nat;
     tr_play_type := k !!! 2%nat;
     tr_success_rate := agg_mean "first_down_converted" g;
     tr_sample_size := agg_count "play_id" g |}.

Definition field_record (group : list value * list (gmap string value))
    : FieldRate :=
  let '(k, g) := group in
  {| fr_zone := k !!! 0%nat;
     fr_play_type := k !!! 1%nat;
     fr_conversion_rate := agg_mean "first_down_converted" g;
     fr_td_rate := agg_mean "touchdown" g;
     fr_sample_size := agg_count "play_id" g |}.

(** Each calculator receives the shared table and returns its records
    together with the table as it leaves it. *)
Definition calculate_league_rates (pbp : DataFrame)
    : res (list LeagueRate * DataFrame) :=
  pbp ← apply_bucket "ydstogo" "dist_bucket" distance_bucket pbp;
  require "down" pbp;;
  let third_fourth := select (λ r, isin [VNum 3; VNum 4] (cell "down" r)) pbp in
  agg_ready ["down"; "dist_bucket"; "play_type"]
            ["first_down_converted"; "play_id"] ["first_down_converted"]
            third_fourth;;
  let rates := league_record <$> groupby ["down"; "dist_bucket"; "play_type"] third_fourth in
  let rates := filter (λ r, (10 ≤ lr_sample_size r)%nat) rates in
  Ok (rates, pbp).

Definition calculate_team_rates (pbp : DataFrame)
    : res (list TeamRate * DataFrame) :=
  pbp ← apply_bucket "ydstogo" "dist_bucket" distance_bucket pbp;
  require "down" pbp;;
  let third_downs := select (λ r, value_eqb (cell "down" r) (VNum 3)) pbp in
  agg_ready ["posteam"; "dist_bucket"; "play_type"]
            ["first_down_converted"; "play_id"] ["first_down_converted"]
            third_downs;;
  let rates := team_record <$> groupby ["posteam"; "dist_bucket"; "play_type"] third_downs in
  let rates := filter (λ r, (5 ≤ tr_sample_size r)%nat) rates in
  let rates := filter (λ r, notna (tr_team r)) rates in
  Ok (rates, pbp).

Definition calculate_field_position_impact (pbp : DataFrame)
    : res (list FieldRate * DataFrame) :=
  pbp ← apply_bucket "yardline_100" "field_zone" field_zone pbp;
  require "down" pbp;;
  let third_downs := select (λ r, value_eqb (cell "down" r) (VNum 3)) pbp in
  let third_downs :=
    if has_column "touchdown" third_downs then third_downs
    else assign "touchdown" (λ _, VNum 0) third_downs in
  agg_ready ["field_zone"; "play_type"]
            ["first_down_converted"; "touchdown"; "play_id"]
            ["first_down_converted"; "touchdown"]
            third_downs;;
  let rates := field_record <$> groupby ["field_zone"; "play_type"] third_downs in
  Ok (rates, pbp).

(** ** Sorting a frame by a rate column *)

(** The order of [sort_values(..., ascending=False)]: larger rates first, NaN
    last ([na_position='last']). *)
Definition rate_geb (a b : option Q) : bool :=
  match a, b with
  | _, None => true
  | None, Some _ => false
  | Some x, Some y => Qle_bool y x
  end.

Definition rate_desc {A} (by_rate : A → option Q) (x y : A) : Prop :=
  rate_geb (by_rate x) (by_rate y).

(** [sort_values] is called with its default [kind] ('quicksort'), for which
    pandas promises an ordered rearrangement of the rows and nothing about
    rows that compare equal.  The interface says just that. *)
Class SortValues := {
  sort_values_desc : ∀ {A : Type}, (A → option Q) → list A → list A;
  sort_values_desc_perm : ∀ {A : Type} (by_rate : A → option Q) (l : list A),
    sort_values_desc by_rate l ≡ₚ l;
  sort_values_desc_sorted : ∀ {A : Type} (by_rate : A → option Q) (l : list A),
    Sorted (rate_desc by_rate) (sort_values_desc by_rate l)
}.

(** One implementation, which keeps rows of equal rate in their incoming
    order (the behaviour of [kind='stable']). *)
Fixpoint insert_desc {A} (by_rate : A → option Q) (x : A) (l : list A) : list A :=
  match l with
  | [] => [x]
  | y :: l' =>
      if rate_geb (by_rate x) (by_rate y) then x :: l
      else y :: insert_desc by_rate x l'
  end.

Definition stable_sort_desc {A} (by_rate : A → option Q) (l : list A) : list A :=
  foldr (insert_desc by_rate) [] l.

(** ** Console and external requests *)

Inductive event :=
  | Request (season : Z)            (* nfl.import_pbp_data([season]) *)
  | Using2025                       (* "Using 2025 season data" *)
  | Fallback2024                    (* "2025 data not available, using 2024" *)
  | ErrorLoading (e : exn)          (* "Error loading data: ..." *)
  | Loading                         (* "Loading NFL play-by-play data..." *)
  | FailedToLoad                    (* "Error: Failed to load data" *)
  | Loaded (plays : nat) (season : Z)
  | Calculating
  | Step (i : nat)                  (* "[i/4] ..." *)
  | Generated (i : nat) (records : nat)
  | WarnNoReceiver                  (* "Warning: receiver_player_id column not found, skipping player stats" *)
  | Saving
  | Saved
  | Summary (season : Z) (plays league team field player : nat)
  | Done
  | Traceback (e : exn).            (* an exception nobody caught *)

(** ** The player calculator *)

Record ReceiverStat := {
  rs_player_id : value;
  rs_player_name : value;
  rs_catch_rate : option Q;
  rs_conversion_rate : option Q;
  rs_targets : nat
}.

Record RusherStat := {
  ru_player_id : value;
  ru_player_name : value;
  ru_conversion_rate : option Q;
  ru_carries : nat
}.

Record PlayerRate := {
  player_id : value;
  player_name : value;
  position : string;
  conversion_rate : option Q
}.

(** [pbp[(pbp['down'] == 3) & (pbp['play_type'] == play)].copy()] *)
Definition third_down (play : string) (pbp : DataFrame) : res DataFrame :=
  require "down" pbp;;
  require "play_type" pbp;;
  Ok (select (λ r, value_eqb (cell "down" r) (VNum 3)
                   && value_eqb (cell "play_type" r) (VStr play)) pbp).

Definition receiver_stat (group : list value * list (gmap string value))
    : ReceiverStat :=
  let '(k, g) := group in
  {| rs_player_id := k !!! 0%nat;
     rs_player_name := agg_first "receiver_player_name" g;
     rs_catch_rate := agg_mean "complete_pass" g;
     rs_conversion_rate := agg_mean "first_down_converted" g;
     rs_targets := agg_count "play_id" g |}.

Definition rusher_stat (group : list value * list (gmap string value))
    : RusherStat :=
  let '(k, g) := group in
  {| ru_player_id := k !!! 0%nat;
     ru_player_name := agg_first "rusher_player_name" g;
     ru_conversion_rate := agg_mean "first_down_converted" g;
     ru_carries := agg_count "play_id" g |}.

(** The emitted shape: [stats[['player_id', 'player_name', 'position',
    'conversion_rate']].to_dict('records')] after the position label is
    set. *)
Definition receiver_record (s : ReceiverStat) : PlayerRate :=
  {| player_id := rs_player_id s;
     player_name := rs_player_name s;
     position := "WR";
     conversion_rate := rs_conversion_rate s |}.

Definition rusher_record (s : RusherStat) : PlayerRate :=
  {| player_id := ru_player_id s;
     player_name := ru_player_name s;
     position := "RB";
     conversion_rate := ru_conversion_rate s |}.

(** Lines 247-265: the receiver frame before it is sorted. *)
Definition receiver_groups (third_down_passes : DataFrame)
    : res (list ReceiverStat) :=
  third_down_passes ←
    (if has_column "complete_pass" third_down_passes then Ok third_down_passes
     else
       require "pass_length" third_down_passes;;
       Ok (assign "complete_pass"
             (λ r, VNum (if notna (cell "pass_length" r) then 1 else 0))
             third_down_passes));
  agg_ready ["receiver_player_id"]
            ["receiver_player_name"; "complete_pass"; "first_down_converted"; "play_id"]
            ["complete_pass"; "first_down_converted"]
            third_down_passes;;
  let stats := receiver_stat <$> groupby ["receiver_player_id"] third_down_passes in
  let stats := filter (λ s, (10 ≤ rs_targets s)%nat) stats in
  let stats := filter (λ s, notna (rs_player_id s)) stats in
  let stats := filter (λ s, notna (rs_player_name s)) stats in
  Ok stats.

(** Lines 275-285: the rusher frame before it is sorted. *)
Definition rusher_groups (third_down_runs : DataFrame)
    : res (list RusherStat) :=
  agg_ready ["rusher_player_id"]
            ["rusher_player_name"; "first_down_converted"; "play_id"]
            ["first_down_converted"]
            third_down_runs;;
  let stats := rusher_stat <$> groupby ["rusher_player_id"] third_down_runs in
  let stats := filter (λ s, (10 ≤ ru_carries s)%nat) stats in
  let stats := filter (λ s, notna (ru_player_id s)) stats in
  let stats := filter (λ s, notna (ru_player_name s)) stats in
  Ok stats.

Section Player.
Context `{SortValues}.

(** Lines 247-268: the receiver frame, sorted and cut. *)
Definition receiver_stats (third_down_passes : DataFrame)
    : res (list ReceiverStat) :=
  stats ← receiver_groups third_down_passes;
  Ok (take 50 (sort_values_desc rs_conversion_rate stats)).

(** Lines 292-293. *)
Definition receiver_data (stats : list ReceiverStat) : list PlayerRate :=
  receiver_record <$> stats.

(** Lines 273-289. *)
Definition rusher_data (third_down_runs : DataFrame) : res (list PlayerRate) :=
  if has_column "rusher_player_id" third_down_runs then
    stats ← rusher_groups third_down_runs;
    let stats := take 50 (sort_values_desc ru_conversion_rate stats) in
    Ok (rusher_record <$> stats)
  else Ok [].

(** The calculator works on copies only; it returns what it printed and
    its records. *)
Definition calculate_player_rates (pbp : DataFrame)
    : list event * res (list PlayerRate) :=
  match third_down "pass" pbp with
  | Raise e => ([], Raise e)
  | Ok third_down_passes =>
      if negb (has_column "receiver_player_id" third_down_passes) then
        ([WarnNoReceiver], Ok [])
      else
        ([],
         stats ← receiver_stats third_down_passes;
         third_down_runs ← third_down "run" pbp;
         rushers ← rusher_data third_down_runs;
         Ok ((receiver_data stats ++ rushers)%list))
  end.
End Player.

(** ** Loading and the run *)

Record Metadata := {
  description : string;
  source : string;
  note : string
}.

Record OutputDocument := {
  generated_at : string;
  season : Z;
  total_plays : nat;
  league_conversion_rates : list LeagueRate;
  team_conversion_rates : list TeamRate;
  field_position_impact : list FieldRate;
  player_success_rates : list PlayerRate;
  metadata : Metadata
}.

(** What a run leaves behind: the console, the process exit status and the
    document written to [../probability-data.json], if any. *)
Record Outcome := {
  console : list event;
  exit_status : Z;
  written : option OutputDocument
}.

(** Lines 114-124 of [load_play_by_play_data]: the filters and the derived
    indicator. *)
Definition relevant_plays (pbp : DataFrame) : res DataFrame :=
  require "play_type" pbp;;
  let pbp := select (λ r, isin [VStr "pass"; VStr "run"] (cell "play_type" r)) pbp in
  require "down" pbp;;
  let pbp := select (λ r, isin [VNum 1; VNum 2; VNum 3; VNum 4] (cell "down" r)) pbp in
  if has_column "first_down_converted" pbp then Ok pbp
  else
    require "first_down" pbp;;
    require "touchdown" pbp;;
    Ok (assign "first_down_converted"
          (λ r, VNum (if value_eqb (cell "first_down" r) (VNum 1)
                         || value_eqb (cell "touchdown" r) (VNum 1)
                      then 1 else 0))
          pbp).

Section Run.
Context `{SortValues}.
(** The data provider, [nfl.import_pbp_data([season])]. *)
Variable import_pbp_data : Z → res DataFrame.
(** The clock, [datetime.now().isoformat()]. *)
Variable now : string.

Definition load_play_by_play_data : list event * option (DataFrame * Z) :=
  let '(log, fetched) :=
    match import_pbp_data 2025 with
    | Ok pbp_2025 => ([Request 2025; Using2025], Ok (pbp_2025, 2025%Z))
    | Raise _ =>
        ([Request 2025; Fallback2024; Request 2024],
         (λ pbp_2024, (pbp_2024, 2024%Z)) <$> import_pbp_data 2024)
    end in
  match fetched ≫= (λ '(pbp, current_season),
                      pbp ← relevant_plays pbp; Ok (pbp, current_season)) with
  | Ok loaded => (log, Some loaded)
  | Raise e => ((log ++ [ErrorLoading e])%list, None)
  end.

(** An exception that reaches the top level: traceback, exit status 1. *)
Definition crash (log : list event) (e : exn) : Outcome :=
  {| console := (log ++ [Traceback e])%list; exit_status := 1; written := None |}.

Definition main : Outcome :=
  let '(log, loaded) := load_play_by_play_data in
  let log := Loading :: log in
  match loaded with
  | None =>
      {| console := (log ++ [FailedToLoad])%list; exit_status := 1; written := None |}
  | Some (pbp, current_season) =>
      let log := (log ++ [Loaded (len pbp) current_season; Calculating; Step 1])%list in
      match calculate_league_rates pbp with
      | Raise e => crash log e
      | Ok (league_rates, pbp) =>
      let log := (log ++ [Generated 1 (length league_rates); Step 2])%list in
      match calculate_team_rates pbp with
      | Raise e => crash log e
      | Ok (team_rates, pbp) =>
      let log := (log ++ [Generated 2 (length team_rates); Step 3])%list in
      match calculate_field_position_impact pbp with
      | Raise e => crash log e
      | Ok (field_position, pbp) =>
      let log := (log ++ [Generated 3 (length field_position); Step 4])%list in
      let '(printed, player) := calculate_player_rates pbp in
      let log := (log ++ printed)%list in
      match player with
      | Raise e => crash log e
      | Ok player_rates =>
          let output :=
            {| generated_at := now;
               season := current_season;
               total_plays := len pbp;
               league_conversion_rates := league_rates;
               team_conversion_rates := team_rates;
               field_position_impact := field_position;
               player_success_rates := player_rates;
               metadata :=
                 {| description := "NFL probability data for live game simulator";
                    source := "nflverse/nfl_data_py";
                    note := "For entertainment purposes only" |} |} in
          {| console :=
               (log ++ [Generated 4 (length player_rates); Saving; Saved;
                        Summary current_season (len pbp) (length league_rates)
                          (length team_rates) (length field_position)
                          (length player_rates);
                        Done])%list;
             exit_status := 0;
             written := Some output |}
      end end end end
  end.
End Run.

(** ** Running the calculators in an arbitrary order *)

Inductive calculator := League | Team | FieldPosition | Player.

#[global] Instance calculator_eq_dec : EqDecision calculator.
Proof. solve_decision. Defined.

(** The result sets collected so far; a calculator fills its own slot. *)
Record Results := {
  league : option (list LeagueRate);
  team : option (list TeamRate);
  field : option (list FieldRate);
  player : option (list PlayerRate)
}.

Definition no_results : Results :=
  {| league := None; team := None; field := None; player := None |}.

Definition run_calculator `{SortValues} (c : calculator)
    (st : Results * DataFrame) : res (Results * DataFrame) :=
  let '(r, pbp) := st in
  match c with
  | League =>
      '(x, pbp) ← calculate_league_rates pbp;
      Ok ({| league := Some x; team := team r; field := field r; player := player r |}, pbp)
  | Team =>
      '(x, pbp) ← calculate_team_rates pbp;
      Ok ({| league := league r; team := Some x; field := field r; player := player r |}, pbp)
  | FieldPosition =>
      '(x, pbp) ← calculate_field_position_impact pbp;
      Ok ({| league := league r; team := team r; field := Some x; player := player r |}, pbp)
  | Player =>
      x ← (calculate_player_rates pbp).2;
      Ok ({| league := league r; team := team r; field := field r; player := Some x |}, pbp)
  end.

Fixpoint run_in_order `{SortValues} (order : list calculator)
    (st : Results * DataFrame) : res (Results * DataFrame) :=
  match order with
  | [] => Ok st
  | c :: order => st ← run_calculator c st; run_in_order order st
  end.

(** What a calculator contributes to the collected results, as a function
    of the table it is given. *)
Definition slot_update `{SortValues} (c : calculator) (pbp : DataFrame)
    : option (Results → Results) :=
  match c with
  | League =>
      (λ x r, {| league := Some x; team := team r; field := field r;
                 player := player r |})
        <$> succeeded (fst <$> calculate_league_rates pbp)
  | Team =>
      (λ x r, {| league := league r; team := Some x; field := field r;
                 player := player r |})
        <$> succeeded (fst <$> calculate_team_rates pbp)
  | FieldPosition =>
      (λ x r, {| league := league r; team := team r; field := Some x;
                 player := player r |})
        <$> succeeded (fst <$> calculate_field_position_impact pbp)
  | Player =>
      (λ x r, {| league := league r; team := team r; field := field r;
                 player := Some x |})
        <$> succeeded (calculate_player_rates pbp).2
  end.

(** The results of running [order] when every calculator is given the same
    table [pbp]. *)
Fixpoint run_on_same `{SortValues} (pbp : DataFrame) (order : list calculator)
    (r : Results) : option Results :=
  match order with
  | [] => Some r
  | c :: order => u ← slot_update c pbp; run_on_same pbp order (u r)
  end.

(** The columns the calculators add to the shared table. *)
Definition derived_columns : list string := ["dist_bucket"; "field_zone"].

(** Two tables that differ at most in the listed columns. *)
Definition same_except (cs : list string) (a b : DataFrame) : Prop :=
  (∀ c, c ∉ cs → (c ∈ columns a ↔ c ∈ columns b))
  ∧ Forall2 (λ r r' : gmap string value, ∀ c, c ∉ cs → r !! c = r' !! c)
            (rows a) (rows b).

(** Two rows, or two tables, that cannot be told apart through the listed
    columns. *)
Definition agree_on (cs : list string) (r r' : gmap string value) : Prop :=
  ∀ c, c ∈ cs → cell c r = cell c r'.

Definition alike (cs : list string) (a b : DataFrame) : Prop :=
  (∀ c, c ∈ cs → has_column c a = has_column c b)
  ∧ Forall2 (agree_on cs) (rows a) (rows b).

(** The columns each calculator reads from the table it is given. *)
Definition rate_columns : list string :=
  ["ydstogo"; "down"; "play_type"; "first_down_converted"; "play_id"].

Definition team_columns : list string := "posteam" :: rate_columns.

Definition field_columns : list string :=
  ["yardline_100"; "down"; "play_type"; "first_down_converted"; "touchdown";
   "play_id"].

Definition player_columns : list string :=
  ["down"; "play_type"; "receiver_player_id"; "receiver_player_name";
   "complete_pass"; "pass_length"; "first_down_converted"; "play_id";
   "rusher_player_id"; "rusher_player_name"].

(** ** The CORS forwarder *)

Record HttpRequest := {
  url : string;
  request_headers : list (string * string)
}.

Record Response := {
  status : Z;
  headers : list (string * string);
  body : string
}.

(** [_set_cors_headers] *)
Definition _set_cors_headers : list (string * string) :=
  [("Access-Control-Allow-Origin", "*");
   ("Access-Control-Allow-Methods", "GET, POST, OPTIONS");
   ("Access-Control-Allow-Headers", "*");
   ("Access-Control-Max-Age", "3600")].

(** [sub in s] *)
Fixpoint contains (sub s : string) : bool :=
  String.prefix sub s
  || match s with
     | EmptyString => false
     | String _ s' => contains sub s'
     end.

(** [s[n:]] *)
Fixpoint slice_from (n : nat) (s : string) : string :=
  match n, s with
  | O, _ => s
  | S _, EmptyString => ""
  | S n, String _ s' => slice_from n s'
  end.

(** [s.split(sep, 1)]: cut at the first occurrence of [sep]. *)
Fixpoint split_once (sep s : string) : list string :=
  if String.prefix sep s then [""; slice_from (String.length sep) s]
  else
    match s with
    | EmptyString => [""]
    | String a s' =>
        match split_once sep s' with
        | first :: rest => String a first :: rest
        | [] => [String a ""]
        end
    end.

(** [s.split(sep)] for a one-character separator. *)
Fixpoint split_all (sep : ascii) (s : string) : list string :=
  match s with
  | EmptyString => [""]
  | String a s' =>
      if Ascii.eqb a sep then "" :: split_all sep s'
      else
        match split_all sep s' with
        | first :: rest => String a first :: rest
        | [] => [String a ""]
        end
  end.

(** The value of a query parameter as a reader of URLs understands a request
    path: the query string starts after the first ["?"], its parameters are
    separated by ["&"], and a parameter is [name=value].  The handler does
    not compute this; it is here to be compared with the handler's test. *)
Definition query_parameter (name path : string) : option string :=
  match split_once "?" path with
  | [_; query] =>
      slice_from (String.length name + 1)
        <$> head (filter (λ p, String.prefix (name ++ "=") p)
                         (split_all "&" query))
  | _ => None
  end.

Section Proxy.
(** [urllib.parse.unquote] *)
Variable unquote : string → string.
(** [urllib.request.urlopen(urllib.request.Request(...)).read()]: the body,
    or the text of the exception. *)
Variable urlopen : HttpRequest → string + string.

(** The handler's answer and the upstream requests it made. *)
Definition do_GET (path : string) : list HttpRequest * Response :=
  if contains "?url=" path then
    let encoded_url := split_once "?url=" path !!! 1%nat in
    let espn_url := unquote encoded_url in
    let req := {| url := espn_url;
                  request_headers := [("User-Agent", "Mozilla/5.0")] |} in
    match urlopen req with
    | inl data =>
        ([req],
         {| status := 200;
            headers := (_set_cors_headers ++ [("Content-Type", "application/json")])%list;
            body := data |})
    | inr e =>
        ([req],
         {| status := 500;
            headers := (_set_cors_headers ++ [("Content-Type", "text/plain")])%list;
            body := "Proxy error: " ++ e |})
    end
  else
    ([],
     {| status := 400;
        headers := (_set_cors_headers ++ [("Content-Type", "text/plain")])%list;
        body := "Missing 'url' parameter" |}).

Definition do_OPTIONS : Response :=
  {| status := 200; headers := _set_cors_headers; body := "" |}.
End Proxy.

(** ** Rows that take part in a grouping *)

(** A row has a complete label when none of its grouping cells is missing. *)
Definition labelled (keys : list string) (r : gmap string value) : Prop :=
  forallb notna (group_label keys r).

(** ** Counting the plays behind a player record *)

(** The third-down plays of one kind that carry a play id and are credited to
    the player [id] under the identity column [col]. *)
Definition backing (col play : string) (pbp : DataFrame) (id : value) : nat :=
  length (filter (λ r, value_eqb (cell "down" r) (VNum 3)
                        && value_eqb (cell "play_type" r) (VStr play)
                        && notna (cell "play_id" r)
                        && bool_decide (canon (cell col r) = id))
                 (rows pbp)).

(** Ascending order on group labels made of a single cell, as player ids
    are. *)
Definition value_le (a b : value) : Prop := value_compare a b ≠ Gt.


(** The distinct values of a list in the order in which they first occur. *)
Definition first_seen (vs : list value) : list value :=
  foldl (λ seen v, if decide (v ∈ seen) then seen else (seen ++ [v])%list) [] vs.

(** ** Sample tables *)

Definition all_columns : list string :=
  ["play_id"; "down"; "ydstogo"; "play_type"; "posteam"; "yardline_100";
   "first_down_converted"; "touchdown"; "receiver_player_id";
   "receiver_player_name"; "complete_pass"; "rusher_player_id";
   "rusher_player_name"].

(** A third-down pass thrown to [receiver], 2 yards to go at the 30. *)
Definition pass_play (id : Z) (receiver : string) (converted : Z)
    : gmap string value :=
  list_to_map
    [("play_id", VNum (inject_Z id)); ("down", VNum 3); ("ydstogo", VNum 2);
     ("play_type", VStr "pass"); ("posteam", VStr "ABC");
     ("yardline_100", VNum 30);
     ("first_down_converted", VNum (inject_Z converted)); ("touchdown", VNum 0);
     ("receiver_player_id", VStr receiver);
     ("receiver_player_name", VStr ("Mr " ++ receiver));
     ("complete_pass", VNum (inject_Z converted));
     ("rusher_player_id", VNull); ("rusher_player_name", VNull)].

(** A third-down run by [rusher], 8 yards to go at the 60. *)
Definition run_play (id : Z) (rusher : string) (converted : Z)
    : gmap string value :=
  list_to_map
    [("play_id", VNum (inject_Z id)); ("down", VNum 3); ("ydstogo", VNum 8);
     ("play_type", VStr "run"); ("posteam", VStr "ABC");
     ("yardline_100", VNum 60);
     ("first_down_converted", VNum (inject_Z converted)); ("touchdown", VNum 0);
     ("receiver_player_id", VNull); ("receiver_player_name", VNull);
     ("complete_pass", VNull);
     ("rusher_player_id", VStr rusher);
     ("rusher_player_name", VStr ("Mr " ++ rusher))].

(** [n] plays numbered from [start], the first [good] of them converted. *)
Definition series (mk : Z → string → Z → gmap string value) (who : string)
    (start n good : nat) : list (gmap string value) :=
  (λ i, mk (Z.of_nat (start + i)) who (if bool_decide (i < good)%nat then 1 else 0)%Z)
    <$> seq 0 n.

(** Ten passes to B (six converted), then ten to A (six converted), then ten
    runs by R (five converted). *)
Definition sample_rows : list (gmap string value) :=
  (series pass_play "B" 0 10 6 ++ series pass_play "A" 10 10 6
   ++ series run_play "R" 20 10 5)%list.

Definition sample_table : DataFrame :=
  {| columns := all_columns; rows := sample_rows |}.

(** The same plays from a source without the receiver columns. *)
Definition no_receiver_table : DataFrame :=
  {| columns := filter (λ c, c ∉ ["receiver_player_id"; "receiver_player_name"])
                       all_columns;
     rows := (λ r, delete "receiver_player_id" (delete "receiver_player_name" r))
               <$> sample_rows |}.

(** The same plays from a source with a [first_down] flag but neither a
    [touchdown] nor a [first_down_converted] column. *)
Definition no_touchdown_table : DataFrame :=
  {| columns := "first_down" ::
                filter (λ c, c ∉ ["touchdown"; "first_down_converted"]) all_columns;
     rows := (λ r, <["first_down" := cell "first_down_converted" r]>
                     (delete "touchdown" (delete "first_down_converted" r)))
               <$> sample_rows |}.

(** The same plays from a source that has [first_down_converted] but no
    [touchdown] column. *)
Definition converted_only_table : DataFrame :=
  {| columns := filter (λ c, c ∉ ["touchdown"]) all_columns;
     rows := delete "touchdown" <$> sample_rows |}.

(** A single third-down play. *)
Definition one_play_table : DataFrame :=
  {| columns := all_columns; rows := [pass_play 1 "A" 1] |}.

(** Providers and collaborators used in the examples. *)
Definition provider_of (t : DataFrame) : Z → res DataFrame := λ _, Ok t.

Definition provider_2024_only (t : DataFrame) : Z → res DataFrame :=
  λ season, if bool_decide (season = 2024%Z) then Ok t
            else Raise (FetchError "HTTP Error 404: Not Found").

Definition provider_down : Z → res DataFrame :=
  λ _, Raise (FetchError "HTTP Error 404: Not Found").

Definition upstream_ok : HttpRequest → string + string := λ _, inl "{}".

Definition upstream_down : HttpRequest → string + string :=
  λ _, inr "<urlopen error timed out>".


(** ** What the calculators write into the shared table *)

(** The cell written by line 148 and line 181, and the cell written by line
    217. *)
Definition fill_dist_bucket (r : gmap string value) : gmap string value :=
  <["dist_bucket" := VStr (distance_bucket (as_float (cell "ydstogo" r)))]> r.

Definition fill_field_zone (r : gmap string value) : gmap string value :=
  <["field_zone" := VStr (field_zone (as_float (cell "yardline_100" r)))]> r.

(** Whether a sequence of calculators contains one that writes dist_bucket
    (the league or the team calculator), or the one that writes field_zone. *)
Definition writes_dist_bucket (order : list calculator) : bool :=
  existsb (λ c, match c with League | Team => true | _ => false end) order.

Definition writes_field_zone (order : list calculator) : bool :=
  existsb (λ c, match c with FieldPosition => true | _ => false end) order.

(** A row after the writes selected by the two flags. *)
Definition filled (bucket zone : bool) (r : gmap string value)
    : gmap string value :=
  let r := if zone then fill_field_zone r else r in
  if bucket then fill_dist_bucket r else r.

(** ** Proof automation *)

(** Membership in, and inclusion between, explicit lists of column names. *)
Ltac solve_in :=
  by (repeat first [apply list_elem_of_here | apply list_elem_of_further]).

Ltac solve_columns :=
  first
    [ solve_in
    | let x := fresh "x" in
      let Hx := fresh "Hx" in
      intros x Hx;
      repeat (apply elem_of_cons in Hx as [->|Hx]; [solve_in|]);
      by apply elem_of_nil in Hx ].

(** Two explicit lists of column names have no name in common. *)
Ltac solve_disjoint :=
  let x := fresh "x" in
  let Hx := fresh "Hx" in
  let Hd := fresh "Hd" in
  intros x Hx;
  repeat (apply elem_of_cons in Hx as [->|Hx];
          [intros Hd;
           repeat (apply elem_of_cons in Hd as [Hd|Hd]; [discriminate|]);
           by apply elem_of_nil in Hd|]);
  by apply elem_of_nil in Hx.
(** * Properties *)

(** ** The stable sort meets the interface *)

Lemma rate_geb_total (a b : option Q) : rate_geb a b = true ∨ rate_geb b a = true.
Proof.
  destruct a as [x|], b as [y|]; simpl; auto.
  destruct (Qle_bool y x) eqn:E; [auto|right].
  apply Qle_bool_iff. apply Qlt_le_weak, Qnot_le_lt.
  intros Hle. apply Qle_bool_iff in Hle. congruence.
Qed.

Lemma insert_desc_perm {A} (by_rate : A → option Q) x l :
  insert_desc by_rate x l ≡ₚ x :: l.
Proof.
  induction l as [|y l IH]; simpl; [done|].
  destruct (rate_geb _ _); [done|].
  rewrite IH. apply Permutation_swap.
Qed.

Lemma insert_desc_sorted {A} (by_rate : A → option Q) x l :
  Sorted (rate_desc by_rate) l → Sorted (rate_desc by_rate) (insert_desc by_rate x l).
Proof.
  induction 1 as [|y l Hs IH Hhd]; simpl.
  - repeat constructor.
  - destruct (rate_geb (by_rate x) (by_rate y)) eqn:E.
    + constructor; [by constructor|]. constructor. unfold rate_desc. by rewrite E.
    + constructor; [done|].
      assert (Hyx : rate_desc by_rate y x).
      { unfold rate_desc. destruct (rate_geb_total (by_rate x) (by_rate y)) as [E'|E'];
          [congruence|by rewrite E']. }
      destruct Hhd as [|z l Hyz]; simpl.
      * by constructor.
      * destruct (rate_geb (by_rate x) (by_rate z)); by constructor.
Qed.

Lemma stable_sort_desc_perm {A} (by_rate : A → option Q) l :
  stable_sort_desc by_rate l ≡ₚ l.
Proof.
  induction l as [|x l IH]; simpl; [done|].
  by rewrite insert_desc_perm, IH.
Qed.

Lemma stable_sort_desc_sorted {A} (by_rate : A → option Q) l :
  Sorted (rate_desc by_rate) (stable_sort_desc by_rate l).
Proof.
  induction l as [|x l IH]; simpl; [constructor|].
  by apply insert_desc_sorted.
Qed.

#[global] Instance kind_stable : SortValues := {|
  sort_values_desc := @stable_sort_desc;
  sort_values_desc_perm := @stable_sort_desc_perm;
  sort_values_desc_sorted := @stable_sort_desc_sorted
|}.

(** ** Bucketizers *)

Lemma distance_bucket_cases (d : option Q) :
  distance_bucket d ∈ ["short"; "medium"; "long"; "very_long"].
Proof.
  destruct d as [y|]; simpl; [|set_solver].
  repeat (case (Qle_bool y _)); set_solver.
Qed.

Lemma field_zone_cases (y : option Q) :
  field_zone y ∈ ["red_zone"; "green_zone"; "mid_field"; "own_territory"].
Proof.
  destruct y as [y|]; simpl; [|set_solver].
  repeat (case (Qle_bool y _)); set_solver.
Qed.

(** Between the listed boundaries the label is decided by the interval the
    number falls in, whether or not it is a whole number. *)
Lemma distance_bucket_intervals (y : Q) :
  ((y <= 3)%Q → distance_bucket (Some y) = "short")
  ∧ ((3 < y)%Q → (y <= 6)%Q → distance_bucket (Some y) = "medium")
  ∧ ((6 < y)%Q → (y <= 10)%Q → distance_bucket (Some y) = "long")
  ∧ ((10 < y)%Q → distance_bucket (Some y) = "very_long").
Proof.
  assert (Hf : ∀ a b : Q, (a < b)%Q → Qle_bool b a = false).
  { intros a b Hlt. destruct (Qle_bool b a) eqn:E; [|done].
    apply Qle_bool_iff in E. by apply Qlt_not_le in Hlt. }
  assert (Ht : ∀ a b : Q, (a <= b)%Q → Qle_bool a b = true).
  { intros a b. apply Qle_bool_iff. }
  simpl. repeat split; intros.
  - by rewrite Ht.
  - by rewrite (Hf 3%Q y), (Ht y 6%Q).
  - assert (3 < y)%Q by (by eapply Qlt_trans; [|done]).
    by rewrite (Hf 3%Q y), (Hf 6%Q y), (Ht y 10%Q).
  - assert (6 < y)%Q by (by eapply Qlt_trans; [|done]).
    assert (3 < y)%Q by (by eapply Qlt_trans; [|done]).
    by rewrite (Hf 3%Q y), (Hf 6%Q y), (Hf 10%Q y).
Qed.

(** C4: [distance_bucket] and [field_zone] are total functions of a number
    or an undefined value.  Every distance is labelled short, medium, long or
    very_long; an undefined distance is medium; 3 is short, 4 and 6 are
    medium, 7 and 10 are long, 11 is very_long.  Every field position is
    labelled red_zone, green_zone, mid_field or own_territory; an undefined
    one is mid_field; 10 is red_zone, 11 and 20 are green_zone, 21 and 50
    are mid_field, 51 is own_territory. *)
Theorem bucketizers_total_and_exact :
  (∀ d : option Q, distance_bucket d ∈ ["short"; "medium"; "long"; "very_long"])
  ∧ distance_bucket None = "medium"
  ∧ distance_bucket (Some 3%Q) = "short"
  ∧ distance_bucket (Some 4%Q) = "medium"
  ∧ distance_bucket (Some 6%Q) = "medium"
  ∧ distance_bucket (Some 7%Q) = "long"
  ∧ distance_bucket (Some 10%Q) = "long"
  ∧ distance_bucket (Some 11%Q) = "very_long"
  ∧ (∀ y : option Q,
       field_zone y ∈ ["red_zone"; "green_zone"; "mid_field"; "own_territory"])
  ∧ field_zone None = "mid_field"
  ∧ field_zone (Some 10%Q) = "red_zone"
  ∧ field_zone (Some 11%Q) = "green_zone"
  ∧ field_zone (Some 20%Q) = "green_zone"
  ∧ field_zone (Some 21%Q) = "mid_field"
  ∧ field_zone (Some 50%Q) = "mid_field"
  ∧ field_zone (Some 51%Q) = "own_territory".
Proof.
  split; [apply distance_bucket_cases|].
  do 7 (split; [reflexivity|]).
  split; [apply field_zone_cases|].
  repeat split; reflexivity.
Qed.

(** ** Tables: cells, schema, group-by *)

Lemma cell_insert_eq (c : string) (v : value) (r : gmap string value) :
  cell c (<[c := v]> r) = v.
Proof. unfold cell. by rewrite lookup_insert_eq. Qed.

Lemma cell_insert_ne (c c' : string) (v : value) (r : gmap string value) :
  c' ≠ c → cell c (<[c' := v]> r) = cell c r.
Proof. intros Hne. unfold cell. by rewrite lookup_insert_ne. Qed.

Lemma has_column_true (c : string) (df : DataFrame) :
  has_column c df = true ↔ c ∈ columns df.
Proof. apply bool_decide_eq_true. Qed.

Lemma has_column_false (c : string) (df : DataFrame) :
  has_column c df = false ↔ c ∉ columns df.
Proof. apply bool_decide_eq_false. Qed.

Lemma columns_assign (c c' : string) f (df : DataFrame) :
  c ∈ columns (assign c' f df) ↔ c ∈ columns df ∨ c = c'.
Proof.
  unfold assign; simpl. destruct (has_column c' df) eqn:E.
  - apply has_column_true in E. split; [auto|]. by intros [?| ->].
  - rewrite elem_of_app, list_elem_of_singleton. done.
Qed.

Lemma has_column_assign_ne (c c' : string) f (df : DataFrame) :
  c ≠ c' → has_column c (assign c' f df) = has_column c df.
Proof.
  intros Hne. unfold has_column. apply bool_decide_ext.
  rewrite columns_assign. naive_solver.
Qed.

Lemma has_column_assign_eq (c : string) f (df : DataFrame) :
  has_column c (assign c f df) = true.
Proof. apply has_column_true, columns_assign. by right. Qed.

Lemma has_column_select (c : string) mask (df : DataFrame) :
  has_column c (select mask df) = has_column c df.
Proof. reflexivity. Qed.

Lemma require_Ok (c : string) (df : DataFrame) :
  has_column c df = true → require c df = Ok ().
Proof. unfold require. by intros ->. Qed.

Lemma require_inv (c : string) (df : DataFrame) (u : unit) :
  require c df = Ok u → has_column c df = true.
Proof. unfold require. by destruct (has_column c df). Qed.

(** Inverting a step of the error monad. *)
Lemma bind_Ok {A B} (m : res A) (f : A → res B) (b : B) :
  m ≫= f = Ok b → ∃ a, m = Ok a ∧ f a = Ok b.
Proof. destruct m as [a|e]; simpl; [eauto|done]. Qed.

(** *** The groups of [groupby] *)

Lemma elem_of_groupby (keys : list string) (df : DataFrame) k g :
  (k, g) ∈ groupby keys df ↔
  k ∈ group_label keys <$> filter (labelled keys) (rows df)
  ∧ g = filter (λ r, group_label keys r = k) (filter (labelled keys) (rows df)).
Proof.
  unfold groupby. rewrite list_elem_of_fmap. split.
  - intros (k' & [= -> ->] & Hin).
    by rewrite merge_sort_Permutation, elem_of_remove_dups in Hin.
  - intros [Hin ->]. exists k. split; [done|].
    by rewrite merge_sort_Permutation, elem_of_remove_dups.
Qed.

(** Every row with a complete label falls in a group under that label. *)
Lemma groupby_covers (keys : list string) (df : DataFrame) r :
  r ∈ rows df → labelled keys r →
  ∃ g, (group_label keys r, g) ∈ groupby keys df ∧ r ∈ g.
Proof.
  intros Hr Hl. eexists. split.
  - apply elem_of_groupby. split; [|done].
    apply list_elem_of_fmap. exists r. by rewrite list_elem_of_filter.
  - by rewrite !list_elem_of_filter.
Qed.

(** A group is never empty, and its rows carry its label. *)
Lemma groupby_group (keys : list string) (df : DataFrame) k g :
  (k, g) ∈ groupby keys df →
  g ≠ [] ∧ length k = length keys
  ∧ ∀ r, r ∈ g ↔ r ∈ rows df ∧ labelled keys r ∧ group_label keys r = k.
Proof.
  intros [Hk ->]%elem_of_groupby.
  apply list_elem_of_fmap in Hk as (r & -> & Hr).
  split; [|split].
  - intros Hnil. eapply (filter_nil_not_elem_of _ _ r) in Hnil; done.
  - unfold group_label. by rewrite length_fmap.
  - intros r'. rewrite !list_elem_of_filter. naive_solver.
Qed.

(** *** Aggregates *)

Lemma Qsum_zero (xs : list Q) : Forall (λ x, x = 0%Q) xs → Qsum xs = 0%Q.
Proof. induction 1 as [|x xs -> _ IH]; simpl; [done|]. by rewrite IH. Qed.

Lemma agg_mean_zero (c : string) (g : list (gmap string value)) :
  g ≠ [] → (∀ r, r ∈ g → cell c r = VNum 0) → agg_mean c g = Some 0%Q.
Proof.
  intros Hne Hall. unfold agg_mean.
  assert (Hxs : omap (λ r, as_float (cell c r)) g = (λ _, 0%Q) <$> g).
  { clear Hne. induction g as [|r g IH]; [done|].
    simpl. rewrite (Hall r) by by left. simpl. f_equal.
    apply IH. intros r' Hr'. apply Hall. by right. }
  rewrite Hxs. destruct g as [|r g]; [done|]. simpl.
  f_equal. rewrite Qsum_zero.
  - change (0 + 0)%Q with 0%Q. apply (Qred_complete _ 0%Q).
    unfold Qdiv. apply Qmult_0_l.
  - apply Forall_fmap, Forall_forall. done.
Qed.

(** ** What a successful calculator run returned *)

Lemma apply_bucket_inv src dst f (df df' : DataFrame) :
  apply_bucket src dst f df = Ok df' →
  has_column src df = true ∧ df' = with_bucket src dst f df.
Proof.
  unfold apply_bucket, require.
  destruct (has_column src df); simpl; [|done].
  destruct (numeric src df); simpl; [|done].
  by intros [= <-].
Qed.

Lemma fmap_fst_Ok {A B} (m : res (A * B)) (a : A) :
  fst <$> m = Ok a → ∃ b, m = Ok (a, b).
Proof. destruct m as [[a' b]|e]; simpl; [|done]. intros [= ->]. eauto. Qed.

Lemma calculate_league_rates_inv (pbp pbp' : DataFrame) rs :
  calculate_league_rates pbp = Ok (rs, pbp') →
  pbp' = with_bucket "ydstogo" "dist_bucket" distance_bucket pbp
  ∧ rs = filter (λ r, (10 ≤ lr_sample_size r)%nat)
           (league_record
              <$> groupby ["down"; "dist_bucket"; "play_type"]
                    (select (λ r, isin [VNum 3; VNum 4] (cell "down" r)) pbp')).
Proof.
  unfold calculate_league_rates. intros Hc.
  apply bind_Ok in Hc as (pbp1 & [_ ->]%apply_bucket_inv & Hc).
  apply bind_Ok in Hc as (? & _ & Hc).
  apply bind_Ok in Hc as (? & _ & Hc).
  by injection Hc as <- <-.
Qed.

Lemma calculate_team_rates_inv (pbp pbp' : DataFrame) rs :
  calculate_team_rates pbp = Ok (rs, pbp') →
  pbp' = with_bucket "ydstogo" "dist_bucket" distance_bucket pbp
  ∧ rs = filter (λ r, notna (tr_team r))
           (filter (λ r, (5 ≤ tr_sample_size r)%nat)
              (team_record
                 <$> groupby ["posteam"; "dist_bucket"; "play_type"]
                       (select (λ r, value_eqb (cell "down" r) (VNum 3)) pbp'))).
Proof.
  unfold calculate_team_rates. intros Hc.
  apply bind_Ok in Hc as (pbp1 & [_ ->]%apply_bucket_inv & Hc).
  apply bind_Ok in Hc as (? & _ & Hc).
  apply bind_Ok in Hc as (? & _ & Hc).
  by injection Hc as <- <-.
Qed.

(** The third-down frame of the field-position calculator, with the
    touchdown column filled in when the schema lacks it. *)
Lemma calculate_field_position_impact_inv (pbp pbp' : DataFrame) rs :
  calculate_field_position_impact pbp = Ok (rs, pbp') →
  pbp' = with_bucket "yardline_100" "field_zone" field_zone pbp
  ∧ rs = field_record
           <$> groupby ["field_zone"; "play_type"]
                 (let third_downs :=
                    select (λ r, value_eqb (cell "down" r) (VNum 3)) pbp' in
                  if has_column "touchdown" third_downs then third_downs
                  else assign "touchdown" (λ _, VNum 0) third_downs).
Proof.
  unfold calculate_field_position_impact. intros Hc.
  apply bind_Ok in Hc as (pbp1 & [_ ->]%apply_bucket_inv & Hc).
  apply bind_Ok in Hc as (? & _ & Hc).
  apply bind_Ok in Hc as (? & _ & Hc).
  by injection Hc as <- <-.
Qed.

(** ** Sample thresholds *)

Lemma canon_notna (v : value) : notna (canon v) = notna v.
Proof. by destruct v. Qed.

(** A third-down row is found again, under its zone and play type, in the
    field-position result. *)
Lemma field_position_retains (pbp pbp' : DataFrame) rs (row : gmap string value) :
  calculate_field_position_impact pbp = Ok (rs, pbp') →
  row ∈ rows pbp →
  value_eqb (cell "down" row) (VNum 3) = true →
  notna (cell "play_type" row) = true →
  ∃ r, r ∈ rs
       ∧ fr_zone r = VStr (field_zone (as_float (cell "yardline_100" row)))
       ∧ fr_play_type r = canon (cell "play_type" row).
Proof.
  intros [-> ->]%calculate_field_position_impact_inv Hrow Hdown Hplay.
  set (row1 := <["field_zone" :=
                   VStr (field_zone (as_float (cell "yardline_100" row)))]> row).
  set (third := select _ _).
  assert (Hthird : row1 ∈ rows third).
  { unfold third, select; simpl. apply list_elem_of_filter. split.
    - unfold row1. rewrite cell_insert_ne by done. by rewrite Hdown.
    - apply list_elem_of_fmap. by exists row. }
  set (third' := if has_column "touchdown" third then _ else _).
  assert (∃ row2, row2 ∈ rows third'
                  ∧ cell "field_zone" row2 = cell "field_zone" row1
                  ∧ cell "play_type" row2 = cell "play_type" row1)
    as (row2 & Hrow2 & Hz & Hp).
  { unfold third'. destruct (has_column "touchdown" third).
    - by exists row1.
    - exists (<["touchdown" := VNum 0]> row1). split; [|split].
      + simpl. apply list_elem_of_fmap. by exists row1.
      + by rewrite cell_insert_ne.
      + by rewrite cell_insert_ne. }
  assert (Hlabel : group_label ["field_zone"; "play_type"] row2
                   = [VStr (field_zone (as_float (cell "yardline_100" row)));
                      canon (cell "play_type" row)]).
  { unfold group_label; simpl. rewrite Hz, Hp. unfold row1.
    rewrite cell_insert_eq, cell_insert_ne by done. done. }
  destruct (groupby_covers ["field_zone"; "play_type"] third' row2)
    as (g & Hg & _); [done| |].
  { unfold labelled. rewrite Hlabel. simpl. by rewrite canon_notna, Hplay. }
  exists (field_record (group_label ["field_zone"; "play_type"] row2, g)).
  split.
  - apply list_elem_of_fmap. eauto.
  - rewrite Hlabel. done.
Qed.

(** Without a touchdown column every group averages the constant 0. *)
Lemma field_position_td_rate_zero (pbp pbp' : DataFrame) rs :
  has_column "touchdown" pbp = false →
  calculate_field_position_impact pbp = Ok (rs, pbp') →
  ∀ r, r ∈ rs → fr_td_rate r = Some 0%Q.
Proof.
  intros Htd [-> ->]%calculate_field_position_impact_inv r Hr.
  cbv zeta in Hr. rewrite has_column_select in Hr. unfold with_bucket in Hr.
  rewrite has_column_assign_ne, Htd in Hr by done.
  apply list_elem_of_fmap in Hr as ([k g] & -> & Hg).
  apply groupby_group in Hg as (Hne & _ & Hrows).
  simpl. apply agg_mean_zero; [done|].
  intros row [Hrow _]%Hrows. simpl in Hrow.
  apply list_elem_of_fmap in Hrow as (row0 & -> & _).
  apply cell_insert_eq.
Qed.

(** C5: every record of the league result has a sample size of at least 10
    and every record of the team result one of at least 5.  The
    field-position calculator drops nothing: every third-down row with a
    play type is represented in its result by the record of its zone and
    play type, however few rows share them; a table with a single play
    yields a record with sample size 1. *)
Theorem sample_thresholds :
  (∀ pbp rs,
     fst <$> calculate_league_rates pbp = Ok rs →
     ∀ r, r ∈ rs → (10 ≤ lr_sample_size r)%nat)
  ∧ (∀ pbp rs,
       fst <$> calculate_team_rates pbp = Ok rs →
       ∀ r, r ∈ rs → (5 ≤ tr_sample_size r)%nat)
  ∧ (∀ pbp rs row,
       fst <$> calculate_field_position_impact pbp = Ok rs →
       row ∈ rows pbp →
       value_eqb (cell "down" row) (VNum 3) = true →
       notna (cell "play_type" row) = true →
       ∃ r, r ∈ rs
            ∧ fr_zone r = VStr (field_zone (as_float (cell "yardline_100" row)))
            ∧ fr_play_type r = canon (cell "play_type" row))
  ∧ fst <$> calculate_field_position_impact one_play_table
    = Ok [ {| fr_zone := VStr "mid_field"; fr_play_type := VStr "pass";
              fr_conversion_rate := Some 1%Q; fr_td_rate := Some 0%Q;
              fr_sample_size := 1 |} ].
Proof.
  split; [|split; [|split]].
  - intros pbp rs [pbp' [_ ->]%calculate_league_rates_inv]%fmap_fst_Ok r Hr.
    by apply list_elem_of_filter in Hr as [? _].
  - intros pbp rs [pbp' [_ ->]%calculate_team_rates_inv]%fmap_fst_Ok r Hr.
    apply list_elem_of_filter in Hr as [_ Hr].
    by apply list_elem_of_filter in Hr as [? _].
  - intros pbp rs row [pbp' Hc]%fmap_fst_Ok. by eapply field_position_retains.
  - vm_compute. reflexivity.
Qed.

Lemma sample_thresholds_witness :
  (∀ r, r ∈ [ {| lr_down := VNum 3; lr_distance := VStr "long";
                 lr_play_type := VStr "run"; lr_success_rate := Some (1 # 2)%Q;
                 lr_sample_size := 10 |};
              {| lr_down := VNum 3; lr_distance := VStr "short";
                 lr_play_type := VStr "pass"; lr_success_rate := Some (3 # 5)%Q;
                 lr_sample_size := 20 |} ] →
        (10 ≤ lr_sample_size r)%nat)
  ∧ (∀ r, r ∈ [ {| tr_team := VStr "ABC"; tr_distance := VStr "long";
                   tr_play_type := VStr "run"; tr_success_rate := Some (1 # 2)%Q;
                   tr_sample_size := 10 |};
                {| tr_team := VStr "ABC"; tr_distance := VStr "short";
                   tr_play_type := VStr "pass"; tr_success_rate := Some (3 # 5)%Q;
                   tr_sample_size := 20 |} ] →
          (5 ≤ tr_sample_size r)%nat)
  ∧ (∃ r, r ∈ [ {| fr_zone := VStr "mid_field"; fr_play_type := VStr "pass";
                   fr_conversion_rate := Some 1%Q; fr_td_rate := Some 0%Q;
                   fr_sample_size := 1 |} ]
          ∧ fr_zone r = VStr "mid_field" ∧ fr_play_type r = VStr "pass").
Proof.
  split; [|split].
  - apply (proj1 sample_thresholds sample_table). vm_compute. reflexivity.
  - apply (proj1 (proj2 sample_thresholds) sample_table). vm_compute. reflexivity.
  - apply (proj1 (proj2 (proj2 sample_thresholds)) one_play_table _
             (pass_play 1 "A" 1)).
    + vm_compute. reflexivity.
    + by left.
    + reflexivity.
    + reflexivity.
Defined.

(** ** A source without a touchdown column *)

(** Without a touchdown column every group averages the constant 0. *)
Lemma field_position_td_rate_zero' (pbp : DataFrame) rs :
  has_column "touchdown" pbp = false →
  fst <$> calculate_field_position_impact pbp = Ok rs →
  ∀ r, r ∈ rs → fr_td_rate r = Some 0%Q.
Proof.
  intros Htd [pbp' Hc]%fmap_fst_Ok. by eapply field_position_td_rate_zero.
Qed.

(** C6 at a source that has a [first_down] flag but neither [touchdown] nor
    [first_down_converted]: the loader reads the touchdown column while it
    derives the indicator, the [KeyError] is caught, and the run ends with
    exit status 1 before anything is written. *)
Theorem missing_touchdown_aborts_run `{SortValues} (now : string) :
  has_column "touchdown" no_touchdown_table = false
  ∧ has_column "first_down_converted" no_touchdown_table = false
  ∧ relevant_plays no_touchdown_table = Raise (KeyError "touchdown")
  ∧ main (provider_of no_touchdown_table) now
    = {| console := [Loading; Request 2025; Using2025;
                     ErrorLoading (KeyError "touchdown"); FailedToLoad];
         exit_status := 1;
         written := None |}.
Proof. repeat split; vm_compute; reflexivity. Qed.

(** With [first_down_converted] present, the calculator's own default makes
    every touchdown rate 0. *)
Lemma missing_touchdown_defaulted :
  fst <$> calculate_field_position_impact converted_only_table
  = Ok [ {| fr_zone := VStr "mid_field"; fr_play_type := VStr "pass";
            fr_conversion_rate := Some (3 # 5)%Q; fr_td_rate := Some 0%Q;
            fr_sample_size := 20 |};
         {| fr_zone := VStr "own_territory"; fr_play_type := VStr "run";
            fr_conversion_rate := Some (1 # 2)%Q; fr_td_rate := Some 0%Q;
            fr_sample_size := 10 |} ].
Proof. vm_compute. reflexivity. Qed.

(** ** The shared table: what the calculators change and what they read *)

Lemma same_except_refl cs (a : DataFrame) : same_except cs a a.
Proof. split; [done|]. apply Forall_Forall2_diag, Forall_forall. done. Qed.

Lemma same_except_sym cs (a b : DataFrame) :
  same_except cs a b → same_except cs b a.
Proof.
  intros [Hc Hr]. split.
  - intros c Hn. by rewrite Hc.
  - apply Forall2_flip. eapply Forall2_impl; [exact Hr|].
    intros r r' Hrr c Hn. simpl. by rewrite Hrr.
Qed.

Lemma same_except_trans cs (a b c : DataFrame) :
  same_except cs a b → same_except cs b c → same_except cs a c.
Proof.
  intros [Hc1 Hr1] [Hc2 Hr2]. split.
  - intros x Hn. by rewrite Hc1, Hc2.
  - eapply Forall2_trans; [|exact Hr1|exact Hr2].
    intros r1 r2 r3 H12 H23 x Hn. by rewrite H12, H23.
Qed.

(** Filling a column leaves every other column and every other cell as it
    was. *)
Lemma assign_same_except cs (c : string) f (df : DataFrame) :
  c ∈ cs → same_except cs df (assign c f df).
Proof.
  intros Hc. split.
  - intros x Hn. rewrite columns_assign. split; [auto|].
    intros [?| ->]; done.
  - simpl. apply Forall2_fmap_r, Forall_Forall2_diag, Forall_forall.
    intros r _ x Hn. simpl. rewrite lookup_insert_ne; [done|]. by intros ->.
Qed.

Lemma same_except_len cs (a b : DataFrame) : same_except cs a b → len a = len b.
Proof. intros [_ Hr]. by eapply Forall2_length. Qed.

(** From agreement outside the derived columns to agreement on the columns
    a calculator reads. *)
Lemma same_except_alike cs ds (a b : DataFrame) :
  (∀ c, c ∈ cs → c ∉ ds) → same_except ds a b → alike cs a b.
Proof.
  intros Hdisj [Hc Hr]. split.
  - intros c Hin. unfold has_column. apply bool_decide_ext, Hc. auto.
  - eapply Forall2_impl; [exact Hr|].
    intros r r' Hrr c Hin. unfold cell. by rewrite Hrr by auto.
Qed.

Lemma alike_weaken cs cs' (a b : DataFrame) :
  cs' ⊆ cs → alike cs a b → alike cs' a b.
Proof.
  intros Hsub [Hc Hr]. split; [auto|].
  eapply Forall2_impl; [exact Hr|]. intros r r' Hrr c Hin. auto.
Qed.

Lemma require_alike cs c (a b : DataFrame) :
  c ∈ cs → alike cs a b → require c a = require c b.
Proof. intros Hin [Hc _]. unfold require. by rewrite (Hc c Hin). Qed.

Lemma require_all_alike cs ks (a b : DataFrame) :
  ks ⊆ cs → alike cs a b → require_all ks a = require_all ks b.
Proof.
  intros Hsub Hab. induction ks as [|k ks IH]; [done|]. simpl.
  rewrite (require_alike cs k a b), IH; [done| | |done].
  - intros x Hx. apply Hsub. by right.
  - apply Hsub. by left.
Qed.

Lemma numeric_alike cs c (a b : DataFrame) :
  c ∈ cs → alike cs a b → numeric c a = numeric c b.
Proof.
  intros Hin [_ Hr]. unfold numeric.
  replace (existsb (λ r, is_str (cell c r)) (rows a))
    with (existsb (λ r, is_str (cell c r)) (rows b)); [done|].
  induction Hr as [|r r' ra rb Hrr _ IH]; [done|]. simpl.
  by rewrite IH, (Hrr c Hin).
Qed.

Lemma numeric_all_alike cs ks (a b : DataFrame) :
  ks ⊆ cs → alike cs a b → numeric_all ks a = numeric_all ks b.
Proof.
  intros Hsub Hab. induction ks as [|k ks IH]; [done|]. simpl.
  rewrite (numeric_alike cs k a b), IH; [done| | |done].
  - intros x Hx. apply Hsub. by right.
  - apply Hsub. by left.
Qed.

Lemma agg_ready_alike cs keys aggregated averaged (a b : DataFrame) :
  keys ⊆ cs → aggregated ⊆ cs → averaged ⊆ cs → alike cs a b →
  agg_ready keys aggregated averaged a = agg_ready keys aggregated averaged b.
Proof.
  intros ? ? ? Hab. unfold agg_ready.
  by rewrite (require_all_alike cs keys a b), (require_all_alike cs aggregated a b),
    (numeric_all_alike cs averaged a b).
Qed.

Lemma select_alike cs mask mask' (a b : DataFrame) :
  (∀ r r', agree_on cs r r' → mask r = mask' r') →
  alike cs a b → alike cs (select mask a) (select mask' b).
Proof.
  intros Hmask [Hc Hr]. split; [done|]. simpl.
  eapply Forall2_filter; [|exact Hr].
  intros r r' Hrr. by rewrite (Hmask r r' Hrr).
Qed.

Lemma assign_alike cs c f f' (a b : DataFrame) :
  (∀ r r', agree_on cs r r' → f r = f' r') →
  alike cs a b → alike (c :: cs) (assign c f a) (assign c f' b).
Proof.
  intros Hf [Hc Hr]. split.
  - intros x Hx. destruct (decide (x = c)) as [->|Hne].
    + by rewrite !has_column_assign_eq.
    + rewrite !has_column_assign_ne by done. apply Hc.
      apply elem_of_cons in Hx as [?|?]; done.
  - simpl. apply Forall2_fmap_2. eapply Forall2_impl; [exact Hr|].
    intros r r' Hrr x Hx. simpl. destruct (decide (x = c)) as [->|Hne].
    + rewrite !cell_insert_eq. auto.
    + rewrite !cell_insert_ne by done. apply Hrr.
      apply elem_of_cons in Hx as [?|?]; done.
Qed.

Lemma fmap_agree {A B C} (R : A → B → Prop) (f : A → C) (g : B → C) l l' :
  (∀ x y, R x y → f x = g y) → Forall2 R l l' → f <$> l = g <$> l'.
Proof.
  intros Hfg Hl. induction Hl as [|x y l l' Hxy _ IH]; [done|].
  rewrite !fmap_cons. by rewrite IH, (Hfg x y Hxy).
Qed.

Lemma group_label_agree cs keys (r r' : gmap string value) :
  keys ⊆ cs → agree_on cs r r' → group_label keys r = group_label keys r'.
Proof.
  intros Hsub Hrr. unfold group_label. apply list_fmap_ext.
  intros i c Hc. rewrite (Hrr c); [done|].
  apply Hsub. by eapply list_elem_of_lookup_2.
Qed.

(** Tables that agree on the grouping columns have the same labels, in the
    same order, over rows that agree pairwise. *)
Lemma groupby_alike cs keys (a b : DataFrame) :
  keys ⊆ cs → alike cs a b →
  Forall2 (λ kg kg', kg.1 = kg'.1 ∧ Forall2 (agree_on cs) kg.2 kg'.2)
          (groupby keys a) (groupby keys b).
Proof.
  intros Hsub [_ Hr]. unfold groupby.
  assert (Hrs : Forall2 (agree_on cs)
                  (filter (λ r, forallb notna (group_label keys r)) (rows a))
                  (filter (λ r, forallb notna (group_label keys r)) (rows b))).
  { eapply Forall2_filter; [|exact Hr].
    intros r r' Hrr. by rewrite (group_label_agree cs keys r r'). }
  assert (Hks : group_label keys
                  <$> filter (λ r, forallb notna (group_label keys r)) (rows a)
                = group_label keys
                  <$> filter (λ r, forallb notna (group_label keys r)) (rows b)).
  { eapply fmap_agree; [|exact Hrs]. intros r r'. by apply group_label_agree. }
  rewrite Hks. apply Forall2_fmap_2, Forall_Forall2_diag, Forall_forall.
  intros k _. simpl. split; [done|].
  eapply Forall2_filter; [|exact Hrs].
  intros r r' Hrr. by rewrite (group_label_agree cs keys r r').
Qed.

Lemma omap_agree {A B C} (R : A → B → Prop) (f : A → option C)
    (g : B → option C) l l' :
  (∀ x y, R x y → f x = g y) → Forall2 R l l' → omap f l = omap g l'.
Proof.
  intros Hfg Hl. induction Hl as [|x y l l' Hxy _ IH]; [done|]. simpl.
  rewrite (Hfg x y Hxy). destruct (g y); [f_equal|]; exact IH.
Qed.

Lemma agg_mean_agree cs c g g' :
  c ∈ cs → Forall2 (agree_on cs) g g' → agg_mean c g = agg_mean c g'.
Proof.
  intros Hin Hg. unfold agg_mean.
  rewrite (omap_agree (agree_on cs) (λ r, as_float (cell c r))
             (λ r, as_float (cell c r)) g g'); [done| |done].
  intros r r' Hrr. by rewrite (Hrr c Hin).
Qed.

Lemma agg_count_agree cs c g g' :
  c ∈ cs → Forall2 (agree_on cs) g g' → agg_count c g = agg_count c g'.
Proof.
  intros Hin Hg. unfold agg_count. eapply Forall2_length, Forall2_filter; [|exact Hg].
  intros r r' Hrr. by rewrite (Hrr c Hin).
Qed.

Lemma agg_first_agree cs c g g' :
  c ∈ cs → Forall2 (agree_on cs) g g' → agg_first c g = agg_first c g'.
Proof.
  intros Hin Hg. unfold agg_first. do 3 f_equal.
  eapply fmap_agree; [|exact Hg]. intros r r' Hrr. by apply Hrr.
Qed.

(** One output row per group is the same on both sides as soon as the
    builder reads only columns the tables agree on. *)
Lemma records_alike {R} cs keys
    (record : list value * list (gmap string value) → R) (a b : DataFrame) :
  keys ⊆ cs → alike cs a b →
  (∀ k g g', Forall2 (agree_on cs) g g' → record (k, g) = record (k, g')) →
  record <$> groupby keys a = record <$> groupby keys b.
Proof.
  intros Hsub Hab Hrec. eapply fmap_agree; [|by apply (groupby_alike cs)].
  intros [k g] [k' g'] [Hk Hg]. simpl in Hk, Hg. subst k'. by apply Hrec.
Qed.


Lemma with_bucket_alike cs src dst f (a b : DataFrame) :
  src ∈ cs → alike cs a b →
  alike (dst :: cs) (with_bucket src dst f a) (with_bucket src dst f b).
Proof.
  intros Hin Hab. apply assign_alike; [|done].
  intros r r' Hrr. by rewrite (Hrr src Hin).
Qed.

Lemma apply_bucket_alike cs src dst f (a b : DataFrame) :
  src ∈ cs → alike cs a b →
  match apply_bucket src dst f a, apply_bucket src dst f b with
  | Ok a', Ok b' =>
      a' = with_bucket src dst f a ∧ b' = with_bucket src dst f b
      ∧ alike (dst :: cs) a' b'
  | Raise e, Raise e' => e = e'
  | _, _ => False
  end.
Proof.
  intros Hin Hab. unfold apply_bucket.
  rewrite (require_alike cs src a b Hin Hab), (numeric_alike cs src a b Hin Hab).
  destruct (require src b); simpl; [|done].
  destruct (numeric src b); simpl; [|done].
  split; [done|]. split; [done|]. by apply with_bucket_alike.
Qed.

(** Each calculator returns the same records, or fails alike, on tables
    that agree on the columns it reads. *)
Lemma calculate_league_rates_alike (a b : DataFrame) :
  alike rate_columns a b →
  fst <$> calculate_league_rates a = fst <$> calculate_league_rates b.
Proof.
  intros Hab. unfold calculate_league_rates.
  pose proof (apply_bucket_alike rate_columns "ydstogo" "dist_bucket"
                distance_bucket a b ltac:(solve_columns) Hab) as Hbucket.
  destruct (apply_bucket _ _ _ a) as [a'|e], (apply_bucket _ _ _ b) as [b'|e'];
    simpl; try done; [|by subst].
  destruct Hbucket as (_ & _ & Hab').
  rewrite (require_alike ("dist_bucket" :: rate_columns) "down" a' b' ltac:(solve_columns) Hab').
  destruct (require "down" b'); simpl; [|done].
  set (ta := select _ a'). set (tb := select _ b').
  assert (Ht : alike ("dist_bucket" :: rate_columns) ta tb).
  { apply select_alike; [|done]. intros r r' Hrr.
    by rewrite (Hrr "down" ltac:(solve_columns)). }
  rewrite (agg_ready_alike ("dist_bucket" :: rate_columns) _ _ _ ta tb);
    [|solve_columns|solve_columns|solve_columns|exact Ht].
  destruct (agg_ready _ _ _ tb); simpl; [|done].
  do 2 f_equal.
  apply (records_alike ("dist_bucket" :: rate_columns)); [solve_columns|done|].
  intros k g g' Hg. unfold league_record. f_equal.
  - by apply (agg_mean_agree ("dist_bucket" :: rate_columns)); [solve_columns|].
  - by apply (agg_count_agree ("dist_bucket" :: rate_columns)); [solve_columns|].
Qed.

Lemma calculate_team_rates_alike (a b : DataFrame) :
  alike team_columns a b →
  fst <$> calculate_team_rates a = fst <$> calculate_team_rates b.
Proof.
  intros Hab. unfold calculate_team_rates.
  pose proof (apply_bucket_alike team_columns "ydstogo" "dist_bucket"
                distance_bucket a b ltac:(solve_columns) Hab) as Hbucket.
  destruct (apply_bucket _ _ _ a) as [a'|e], (apply_bucket _ _ _ b) as [b'|e'];
    simpl; try done; [|by subst].
  destruct Hbucket as (_ & _ & Hab').
  rewrite (require_alike ("dist_bucket" :: team_columns) "down" a' b' ltac:(solve_columns) Hab').
  destruct (require "down" b'); simpl; [|done].
  set (ta := select _ a'). set (tb := select _ b').
  assert (Ht : alike ("dist_bucket" :: team_columns) ta tb).
  { apply select_alike; [|done]. intros r r' Hrr.
    by rewrite (Hrr "down" ltac:(solve_columns)). }
  rewrite (agg_ready_alike ("dist_bucket" :: team_columns) _ _ _ ta tb);
    [|solve_columns|solve_columns|solve_columns|exact Ht].
  destruct (agg_ready _ _ _ tb); simpl; [|done].
  do 3 f_equal.
  apply (records_alike ("dist_bucket" :: team_columns)); [solve_columns|done|].
  intros k g g' Hg. unfold team_record. f_equal.
  - by apply (agg_mean_agree ("dist_bucket" :: team_columns)); [solve_columns|].
  - by apply (agg_count_agree ("dist_bucket" :: team_columns)); [solve_columns|].
Qed.

Lemma calculate_field_position_impact_alike (a b : DataFrame) :
  alike field_columns a b →
  fst <$> calculate_field_position_impact a
  = fst <$> calculate_field_position_impact b.
Proof.
  intros Hab. unfold calculate_field_position_impact.
  pose proof (apply_bucket_alike field_columns "yardline_100" "field_zone"
                field_zone a b ltac:(solve_columns) Hab) as Hbucket.
  destruct (apply_bucket _ _ _ a) as [a'|e], (apply_bucket _ _ _ b) as [b'|e'];
    simpl; try done; [|by subst].
  destruct Hbucket as (_ & _ & Hab').
  rewrite (require_alike ("field_zone" :: field_columns) "down" a' b' ltac:(solve_columns) Hab').
  destruct (require "down" b'); simpl; [|done].
  set (ta := select _ a'). set (tb := select _ b').
  assert (Ht : alike ("field_zone" :: field_columns) ta tb).
  { apply select_alike; [|done]. intros r r' Hrr.
    by rewrite (Hrr "down" ltac:(solve_columns)). }
  set (ta' := if has_column "touchdown" ta then _ else _).
  set (tb' := if has_column "touchdown" tb then _ else _).
  assert (Ht' : alike ("field_zone" :: field_columns) ta' tb').
  { unfold ta', tb'.
    rewrite (proj1 Ht "touchdown" ltac:(solve_columns)).
    destruct (has_column "touchdown" tb); [done|].
    apply (alike_weaken ("touchdown" :: "field_zone" :: field_columns));
      [solve_columns|].
    apply assign_alike; [done|exact Ht]. }
  rewrite (agg_ready_alike ("field_zone" :: field_columns) _ _ _ ta' tb');
    [|solve_columns|solve_columns|solve_columns|exact Ht'].
  destruct (agg_ready _ _ _ tb'); simpl; [|done].
  f_equal.
  apply (records_alike ("field_zone" :: field_columns)); [solve_columns|done|].
  intros k g g' Hg. unfold field_record. f_equal.
  - by apply (agg_mean_agree ("field_zone" :: field_columns)); [solve_columns|].
  - by apply (agg_mean_agree ("field_zone" :: field_columns)); [solve_columns|].
  - by apply (agg_count_agree ("field_zone" :: field_columns)); [solve_columns|].
Qed.

Lemma third_down_alike cs play (a b : DataFrame) :
  "down" ∈ cs → "play_type" ∈ cs → alike cs a b →
  match third_down play a, third_down play b with
  | Ok a', Ok b' => alike cs a' b'
  | Raise e, Raise e' => e = e'
  | _, _ => False
  end.
Proof.
  intros Hd Hp Hab. unfold third_down.
  rewrite (require_alike cs "down" a b Hd Hab),
    (require_alike cs "play_type" a b Hp Hab).
  destruct (require "down" b); simpl; [|done].
  destruct (require "play_type" b); simpl; [|done].
  apply select_alike; [|done].
  intros r r' Hrr. by rewrite (Hrr "down" Hd), (Hrr "play_type" Hp).
Qed.

Lemma receiver_groups_alike (a b : DataFrame) :
  alike player_columns a b → receiver_groups a = receiver_groups b.
Proof.
  intros Hab. unfold receiver_groups.
  set (fa := if has_column "complete_pass" a then _ else _).
  set (fb := if has_column "complete_pass" b then _ else _).
  assert (Hf : match fa, fb with
               | Ok a', Ok b' => alike player_columns a' b'
               | Raise e, Raise e' => e = e'
               | _, _ => False
               end).
  { unfold fa, fb. rewrite (proj1 Hab "complete_pass" ltac:(solve_columns)).
    destruct (has_column "complete_pass" b); [done|].
    rewrite (require_alike player_columns "pass_length" a b ltac:(solve_columns) Hab).
    destruct (require "pass_length" b); simpl; [|done].
    apply (alike_weaken ("complete_pass" :: player_columns)); [solve_columns|].
    apply assign_alike; [|done].
    intros r r' Hrr. by rewrite (Hrr "pass_length" ltac:(solve_columns)). }
  destruct fa as [a'|e], fb as [b'|e']; simpl; try done; [|by subst].
  rewrite (agg_ready_alike player_columns _ _ _ a' b');
    [|solve_columns|solve_columns|solve_columns|exact Hf].
  destruct (agg_ready _ _ _ b'); simpl; [|done].
  do 4 f_equal.
  apply (records_alike player_columns); [solve_columns|done|].
  intros k g g' Hg. unfold receiver_stat. f_equal.
  - by apply (agg_first_agree player_columns); [solve_columns|].
  - by apply (agg_mean_agree player_columns); [solve_columns|].
  - by apply (agg_mean_agree player_columns); [solve_columns|].
  - by apply (agg_count_agree player_columns); [solve_columns|].
Qed.

Lemma rusher_groups_alike (a b : DataFrame) :
  alike player_columns a b → rusher_groups a = rusher_groups b.
Proof.
  intros Hab. unfold rusher_groups.
  rewrite (agg_ready_alike player_columns _ _ _ a b);
    [|solve_columns|solve_columns|solve_columns|exact Hab].
  destruct (agg_ready _ _ _ b); simpl; [|done].
  do 4 f_equal.
  apply (records_alike player_columns); [solve_columns|done|].
  intros k g g' Hg. unfold rusher_stat. f_equal.
  - by apply (agg_first_agree player_columns); [solve_columns|].
  - by apply (agg_mean_agree player_columns); [solve_columns|].
  - by apply (agg_count_agree player_columns); [solve_columns|].
Qed.

Section Sharing.
Context `{SortValues}.

Lemma calculate_player_rates_alike (a b : DataFrame) :
  alike player_columns a b →
  calculate_player_rates a = calculate_player_rates b.
Proof.
  intros Hab. unfold calculate_player_rates.
  pose proof (third_down_alike player_columns "pass" a b
                ltac:(solve_columns) ltac:(solve_columns) Hab) as Hpass.
  pose proof (third_down_alike player_columns "run" a b
                ltac:(solve_columns) ltac:(solve_columns) Hab) as Hrun.
  destruct (third_down "pass" a) as [pa|e], (third_down "pass" b) as [pb|e'];
    try done; [|by subst].
  rewrite (proj1 Hpass "receiver_player_id" ltac:(solve_columns)).
  destruct (has_column "receiver_player_id" pb); simpl; [|done].
  f_equal. unfold receiver_stats. rewrite (receiver_groups_alike pa pb Hpass).
  destruct (receiver_groups pb) as [groups|e]; simpl; [|done].
  destruct (third_down "run" a) as [ra|e], (third_down "run" b) as [rb|e'];
    simpl; try done; [|by subst].
  unfold rusher_data.
  rewrite (proj1 Hrun "rusher_player_id" ltac:(solve_columns)).
  by rewrite (rusher_groups_alike ra rb Hrun).
Qed.
End Sharing.

(** *** Running the calculators one after the other *)

Lemma with_bucket_same_except src dst f (df : DataFrame) :
  dst ∈ derived_columns →
  same_except derived_columns df (with_bucket src dst f df).
Proof. apply assign_same_except. Qed.

Section Order.
Context `{SortValues}.

Lemma slot_update_same (c : calculator) (a b : DataFrame) :
  same_except derived_columns a b → slot_update c a = slot_update c b.
Proof.
  intros Hab. destruct c; unfold slot_update.
  - rewrite (calculate_league_rates_alike a b); [done|].
    eapply same_except_alike; [|exact Hab]. solve_disjoint.
  - rewrite (calculate_team_rates_alike a b); [done|].
    eapply same_except_alike; [|exact Hab]. solve_disjoint.
  - rewrite (calculate_field_position_impact_alike a b); [done|].
    eapply same_except_alike; [|exact Hab]. solve_disjoint.
  - rewrite (calculate_player_rates_alike a b); [done|].
    eapply same_except_alike; [|exact Hab]. solve_disjoint.
Qed.

(** One calculator: its slot is filled with what [slot_update] computes
    and the table changes in the derived columns at most. *)
Lemma run_calculator_spec (c : calculator) (r : Results) (a : DataFrame) :
  match run_calculator c (r, a) with
  | Ok (r1, a1) =>
      ∃ u, slot_update c a = Some u ∧ r1 = u r
           ∧ same_except derived_columns a a1
  | Raise _ => slot_update c a = None
  end.
Proof.
  destruct c; unfold run_calculator, slot_update.
  - destruct (calculate_league_rates a) as [[x a1]|e] eqn:E; simpl; [|done].
    eexists. split; [done|]. split; [done|].
    apply calculate_league_rates_inv in E as [-> _].
    apply with_bucket_same_except. solve_in.
  - destruct (calculate_team_rates a) as [[x a1]|e] eqn:E; simpl; [|done].
    eexists. split; [done|]. split; [done|].
    apply calculate_team_rates_inv in E as [-> _].
    apply with_bucket_same_except. solve_in.
  - destruct (calculate_field_position_impact a) as [[x a1]|e] eqn:E; simpl;
      [|done].
    eexists. split; [done|]. split; [done|].
    apply calculate_field_position_impact_inv in E as [-> _].
    apply with_bucket_same_except. solve_in.
  - destruct (calculate_player_rates a) as [printed [x|e]]; simpl; [|done].
    eexists. split; [done|]. split; [done|]. apply same_except_refl.
Qed.

Lemma run_in_order_spec (order : list calculator) (r : Results)
    (a b : DataFrame) :
  same_except derived_columns a b →
  succeeded (fst <$> run_in_order order (r, b)) = run_on_same a order r
  ∧ ∀ st, run_in_order order (r, b) = Ok st →
          same_except derived_columns a st.2.
Proof.
  revert r b. induction order as [|c order IH]; intros r b Hab.
  { simpl. split; [done|]. by intros st [= <-]. }
  change (run_in_order (c :: order) (r, b))
    with (run_calculator c (r, b) ≫= run_in_order order).
  change (run_on_same a (c :: order) r)
    with (slot_update c a ≫= λ u, run_on_same a order (u r)).
  rewrite (slot_update_same c a b Hab).
  pose proof (run_calculator_spec c r b) as Hc.
  destruct (run_calculator c (r, b)) as [[r1 b1]|e].
  - destruct Hc as (u & -> & -> & Hb).
    apply IH. by eapply same_except_trans.
  - rewrite Hc. done.
Qed.

Lemma slot_update_commute (c1 c2 : calculator) (a : DataFrame) u1 u2 :
  slot_update c1 a = Some u1 → slot_update c2 a = Some u2 →
  ∀ r, u1 (u2 r) = u2 (u1 r).
Proof.
  destruct c1, c2; simpl; intros H1 H2;
    repeat match goal with
           | H : _ <$> succeeded ?m = Some _ |- _ =>
               destruct (succeeded m); simpl in H; [|done]
           end;
    injection H1 as <-; injection H2 as <-; done.
Qed.

Lemma run_on_same_perm (a : DataFrame) (order1 order2 : list calculator) :
  order1 ≡ₚ order2 → ∀ r, run_on_same a order1 r = run_on_same a order2 r.
Proof.
  induction 1 as [|c l1 l2 _ IH|c1 c2 l|l1 l2 l3 _ IH1 _ IH2]; intros r.
  - done.
  - simpl. destruct (slot_update c a); simpl; [apply IH|done].
  - simpl.
    destruct (slot_update c1 a) as [u1|] eqn:E1,
             (slot_update c2 a) as [u2|] eqn:E2; simpl; try done.
    by rewrite (slot_update_commute c1 c2 a u1 u2 E1 E2).
  - by rewrite IH1.
Qed.
End Order.

(** *** The cells the calculators write *)

Lemma fill_dist_bucket_idem (r : gmap string value) :
  fill_dist_bucket (fill_dist_bucket r) = fill_dist_bucket r.
Proof.
  unfold fill_dist_bucket. rewrite cell_insert_ne by done.
  apply insert_insert_eq.
Qed.

Lemma fill_field_zone_idem (r : gmap string value) :
  fill_field_zone (fill_field_zone r) = fill_field_zone r.
Proof.
  unfold fill_field_zone. rewrite cell_insert_ne by done.
  apply insert_insert_eq.
Qed.

Lemma fill_commute (r : gmap string value) :
  fill_field_zone (fill_dist_bucket r) = fill_dist_bucket (fill_field_zone r).
Proof.
  unfold fill_field_zone, fill_dist_bucket. rewrite !cell_insert_ne by done.
  by apply insert_insert_ne.
Qed.

Lemma filled_dist_bucket (bucket zone : bool) (r : gmap string value) :
  fill_dist_bucket (filled bucket zone r) = filled true zone r.
Proof.
  unfold filled. destruct bucket; [apply fill_dist_bucket_idem|done].
Qed.

Lemma filled_field_zone (bucket zone : bool) (r : gmap string value) :
  fill_field_zone (filled bucket zone r) = filled bucket true r.
Proof.
  unfold filled. destruct bucket, zone; simpl;
    rewrite ?fill_commute, ?fill_field_zone_idem; done.
Qed.

(** A calculator that returns normally has written its column, and nothing
    else, into the table it was given. *)
Lemma calculators_write (pbp pbp' : DataFrame) :
  (snd <$> calculate_league_rates pbp = Ok pbp'
   ∨ snd <$> calculate_team_rates pbp = Ok pbp' →
   columns pbp' = (if has_column "dist_bucket" pbp then columns pbp
                   else (columns pbp ++ ["dist_bucket"])%list)
   ∧ rows pbp' = fill_dist_bucket <$> rows pbp)
  ∧ (snd <$> calculate_field_position_impact pbp = Ok pbp' →
     columns pbp' = (if has_column "field_zone" pbp then columns pbp
                     else (columns pbp ++ ["field_zone"])%list)
     ∧ rows pbp' = fill_field_zone <$> rows pbp).
Proof.
  split.
  - intros [Hc|Hc].
    + destruct (calculate_league_rates pbp) as [[rs t]|e] eqn:E; [|done].
      injection Hc as ->. by apply calculate_league_rates_inv in E as [-> _].
    + destruct (calculate_team_rates pbp) as [[rs t]|e] eqn:E; [|done].
      injection Hc as ->. by apply calculate_team_rates_inv in E as [-> _].
  - intros Hc.
    destruct (calculate_field_position_impact pbp) as [[rs t]|e] eqn:E; [|done].
    injection Hc as ->.
    by apply calculate_field_position_impact_inv in E as [-> _].
Qed.

Section Writes.
Context `{SortValues}.

(** The table after a sequence of calculators, started from a table that
    already carries the writes [bucket] and [zone]. *)
Lemma run_in_order_writes (pbp : DataFrame) (order : list calculator)
    (bucket zone : bool) (r : Results) (t : DataFrame) st :
  rows t = filled bucket zone <$> rows pbp →
  (∀ c, c ∈ columns t ↔
        c ∈ columns pbp ∨ (bucket = true ∧ c = "dist_bucket")
        ∨ (zone = true ∧ c = "field_zone")) →
  run_in_order order (r, t) = Ok st →
  rows st.2 = filled (bucket || writes_dist_bucket order)
                     (zone || writes_field_zone order) <$> rows pbp
  ∧ ∀ c, c ∈ columns st.2 ↔
         c ∈ columns pbp
         ∨ (bucket || writes_dist_bucket order = true ∧ c = "dist_bucket")
         ∨ (zone || writes_field_zone order = true ∧ c = "field_zone").
Proof.
  revert bucket zone r t. induction order as [|c order IH];
    intros bucket zone r t Hrows Hcols Hrun.
  { injection Hrun as <-. simpl. by rewrite !orb_false_r. }
  change (run_in_order (c :: order) (r, t))
    with (run_calculator c (r, t) ≫= run_in_order order) in Hrun.
  apply bind_Ok in Hrun as ([r1 t1] & Hc & Hrun).
  assert (Hstep :
    rows t1 = filled (bucket || match c with League | Team => true | _ => false end)
                     (zone || match c with FieldPosition => true | _ => false end)
                <$> rows pbp
    ∧ ∀ x, x ∈ columns t1 ↔
           x ∈ columns pbp
           ∨ (bucket || match c with League | Team => true | _ => false end = true
              ∧ x = "dist_bucket")
           ∨ (zone || match c with FieldPosition => true | _ => false end = true
              ∧ x = "field_zone")).
  { destruct c; simpl in Hc.
    - apply bind_Ok in Hc as ([x t'] & [-> _]%calculate_league_rates_inv & [= _ <-]).
      rewrite orb_true_r, orb_false_r. split.
      + simpl. rewrite Hrows, <- list_fmap_compose. apply list_fmap_ext.
        intros i row _. apply filled_dist_bucket.
      + intros y. unfold with_bucket. rewrite columns_assign, Hcols.
        destruct bucket; naive_solver.
    - apply bind_Ok in Hc as ([x t'] & [-> _]%calculate_team_rates_inv & [= _ <-]).
      rewrite orb_true_r, orb_false_r. split.
      + simpl. rewrite Hrows, <- list_fmap_compose. apply list_fmap_ext.
        intros i row _. apply filled_dist_bucket.
      + intros y. unfold with_bucket. rewrite columns_assign, Hcols.
        destruct bucket; naive_solver.
    - apply bind_Ok in Hc
        as ([x t'] & [-> _]%calculate_field_position_impact_inv & [= _ <-]).
      rewrite orb_true_r, orb_false_r. split.
      + simpl. rewrite Hrows, <- list_fmap_compose. apply list_fmap_ext.
        intros i row _. apply filled_field_zone.
      + intros y. unfold with_bucket. rewrite columns_assign, Hcols.
        destruct zone; naive_solver.
    - apply bind_Ok in Hc as (x & _ & [= _ <-]).
      by rewrite !orb_false_r. }
  destruct Hstep as [Hrows1 Hcols1].
  destruct (IH _ _ r1 t1 Hrows1 Hcols1 Hrun) as [Hrows' Hcols'].
  simpl. rewrite !orb_assoc. done.
Qed.
End Writes.

(** C1, as the code has it: a league or team calculator that returns
    normally has written the column dist_bucket of the shared table, and the
    field-position calculator the column field_zone: the column is appended
    to the schema when it is not there and overwritten where it stands when
    it is, and every row gets the bucket of its ydstogo, or the zone of its
    yardline_100, in it.  So a table without such a column is not the same
    after the call, and after any sequence of calculators the rows are the
    original rows with exactly the cells of the calculators that ran filled
    in.  Apart from these two columns no calculator adds, removes or changes
    a column, a row or a cell, and the player calculator leaves the table as
    it is.  The four result sets do not depend on the order in which the
    calculators run (nor does whether the run fails). *)
Theorem calculators_share_table `{SortValues} (pbp : DataFrame) :
  (∀ order r st,
     run_in_order order (r, pbp) = Ok st →
     same_except ["dist_bucket"; "field_zone"] pbp st.2 ∧ len st.2 = len pbp)
  ∧ (∀ r st, run_calculator Player (r, pbp) = Ok st → st.2 = pbp)
  ∧ (∀ order1 order2,
       order1 ≡ₚ order2 →
       succeeded (fst <$> run_in_order order1 (no_results, pbp))
       = succeeded (fst <$> run_in_order order2 (no_results, pbp)))
  ∧ (∀ pbp',
       snd <$> calculate_league_rates pbp = Ok pbp'
       ∨ snd <$> calculate_team_rates pbp = Ok pbp' →
       columns pbp' = (if has_column "dist_bucket" pbp then columns pbp
                       else (columns pbp ++ ["dist_bucket"])%list)
       ∧ rows pbp' = fill_dist_bucket <$> rows pbp
       ∧ (has_column "dist_bucket" pbp = false → pbp' ≠ pbp))
  ∧ (∀ pbp',
       snd <$> calculate_field_position_impact pbp = Ok pbp' →
       columns pbp' = (if has_column "field_zone" pbp then columns pbp
                       else (columns pbp ++ ["field_zone"])%list)
       ∧ rows pbp' = fill_field_zone <$> rows pbp
       ∧ (has_column "field_zone" pbp = false → pbp' ≠ pbp))
  ∧ (∀ order r st,
       run_in_order order (r, pbp) = Ok st →
       rows st.2 = filled (writes_dist_bucket order) (writes_field_zone order)
                     <$> rows pbp
       ∧ ∀ c, c ∈ columns st.2 ↔
              c ∈ columns pbp
              ∨ (writes_dist_bucket order = true ∧ c = "dist_bucket")
              ∨ (writes_field_zone order = true ∧ c = "field_zone")).
Proof.
  split; [|split; [|split; [|split; [|split]]]].
  - intros order r st Hrun.
    destruct (run_in_order_spec order r pbp pbp (same_except_refl _ _))
      as [_ Hframe].
    specialize (Hframe st Hrun). split; [done|].
    symmetry. by eapply same_except_len.
  - intros r st. simpl.
    destruct (calculate_player_rates pbp) as [printed [x|e]]; simpl; [|done].
    by intros [= <-].
  - intros order1 order2 Hperm.
    rewrite (proj1 (run_in_order_spec order1 no_results pbp pbp
                      (same_except_refl _ _))).
    rewrite (proj1 (run_in_order_spec order2 no_results pbp pbp
                      (same_except_refl _ _))).
    by apply run_on_same_perm.
  - intros pbp' Hc.
    destruct (proj1 (calculators_write pbp pbp') Hc) as [Hcols Hrows].
    split; [done|]. split; [done|].
    intros Hno ->. rewrite Hno in Hcols.
    apply (f_equal length) in Hcols. rewrite length_app in Hcols. simpl in Hcols. lia.
  - intros pbp' Hc.
    destruct (proj2 (calculators_write pbp pbp') Hc) as [Hcols Hrows].
    split; [done|]. split; [done|].
    intros Hno ->. rewrite Hno in Hcols.
    apply (f_equal length) in Hcols. rewrite length_app in Hcols. simpl in Hcols. lia.
  - intros order r st Hrun.
    apply (run_in_order_writes pbp order false false r pbp st); [|naive_solver|done].
    unfold filled. simpl. by rewrite list_fmap_id.
Qed.

Lemma calculators_share_table_witness :
  succeeded (fst <$> run_in_order [Player; FieldPosition; Team; League]
                       (no_results, sample_table))
  = succeeded (fst <$> run_in_order [League; Team; FieldPosition; Player]
                         (no_results, sample_table))
  ∧ is_Some (succeeded (fst <$> run_in_order [League; Team; FieldPosition; Player]
                                  (no_results, sample_table)))
  ∧ ∃ pbp',
      snd <$> calculate_league_rates one_play_table = Ok pbp'
      ∧ columns pbp' = (all_columns ++ ["dist_bucket"])%list
      ∧ rows pbp' = [fill_dist_bucket (pass_play 1 "A" 1)]
      ∧ pbp' ≠ one_play_table.
Proof.
  split; [|split].
  - apply (proj1 (proj2 (proj2 (calculators_share_table sample_table)))).
    exact (reverse_Permutation [League; Team; FieldPosition; Player]).
  - vm_compute. eauto.
  - exists (with_bucket "ydstogo" "dist_bucket" distance_bucket one_play_table).
    assert (Hrun : snd <$> calculate_league_rates one_play_table
                   = Ok (with_bucket "ydstogo" "dist_bucket" distance_bucket
                           one_play_table)) by reflexivity.
    split; [exact Hrun|].
    destruct (proj1 (proj2 (proj2 (proj2 (calculators_share_table one_play_table))))
                _ (or_introl Hrun)) as (Hcols & Hrows & Hne).
    split; [exact Hcols|]. split; [exact Hrows|]. by apply Hne.
Defined.

(** After the four calculators have run on the sample table its schema has
    two more columns, so the table is not what it was. *)
Lemma calculators_extend_shared_table :
  columns <$> (snd <$> run_in_order [League; Team; FieldPosition; Player]
                          (no_results, sample_table))
  = Ok (columns sample_table ++ ["dist_bucket"; "field_zone"])%list
  ∧ snd <$> run_in_order [League; Team; FieldPosition; Player]
              (no_results, sample_table)
    ≠ Ok sample_table.
Proof.
  assert (Hcols : columns <$> (snd <$> run_in_order
                                 [League; Team; FieldPosition; Player]
                                 (no_results, sample_table))
                  = Ok (columns sample_table ++ ["dist_bucket"; "field_zone"])%list).
  { vm_compute. reflexivity. }
  split; [exact Hcols|].
  intros Heq. rewrite Heq in Hcols.
  apply (f_equal (λ m, match m with Ok l => length l | Raise _ => O end)) in Hcols.
  clear Heq. vm_compute in Hcols. discriminate Hcols.
Qed.

(** ** The order in which groups are listed *)

Lemma value_compare_antisym (a b : value) :
  value_compare b a = CompOpp (value_compare a b).
Proof.
  destruct a as [|x|s], b as [|y|t]; simpl; try done.
  - symmetry. apply Qcompare_antisym.
  - apply String.compare_antisym.
Qed.

Lemma label_compare_antisym (a b : list value) :
  label_compare b a = CompOpp (label_compare a b).
Proof.
  revert b. induction a as [|x a IH]; intros [|y b]; simpl; try done.
  rewrite (value_compare_antisym x y).
  destruct (value_compare x y); simpl; [apply IH|done|done].
Qed.

#[global] Instance label_le_total : Total label_le.
Proof.
  intros a b. unfold label_le, label_leb.
  rewrite (label_compare_antisym a b).
  destruct (label_compare a b); simpl; auto.
Qed.

#[global] Instance value_le_trans : Transitive value_le.
Proof.
  intros a b c. unfold value_le.
  destruct a as [|x|s], b as [|y|t], c as [|z|u]; simpl; try done.
  - rewrite <- !Qle_alt. apply Qle_trans.
  - intros Hst Htu.
    assert (String.le s t) as H1 by by (unfold String.le, String.leb; destruct (s ?= t)).
    assert (String.le t u) as H2 by by (unfold String.le, String.leb; destruct (t ?= u)).
    pose proof (transitivity H1 H2) as H3.
    unfold String.le, String.leb in H3. by destruct (s ?= u).
Qed.

(** On labels of one cell the label order is the order of the cells. *)
Lemma label_le_singleton (k1 k2 : list value) :
  length k1 = 1%nat → length k2 = 1%nat →
  label_le k1 k2 → value_le (k1 !!! 0%nat) (k2 !!! 0%nat).
Proof.
  destruct k1 as [|a [|? ?]], k2 as [|b [|? ?]]; try done. intros _ _.
  unfold label_le, label_leb, value_le. simpl.
  by destruct (value_compare a b).
Qed.

Lemma Sorted_impl_on {A} (R R' : relation A) (P : A → Prop) (l : list A) :
  (∀ x y, P x → P y → R x y → R' x y) →
  Forall P l → Sorted R l → Sorted R' l.
Proof.
  intros Himpl HP Hs. induction Hs as [|x l Hs IH Hhd]; [constructor|].
  apply Forall_cons in HP as [Hx Hl].
  constructor; [by apply IH|].
  destruct Hhd as [|y l' Hxy]; constructor.
  apply Forall_cons in Hl as [Hy _]. by apply Himpl.
Qed.

Lemma StronglySorted_filter {A} (R : relation A) (P : A → Prop)
    `{!∀ x, Decision (P x)} (l : list A) :
  StronglySorted R l → StronglySorted R (filter P l).
Proof.
  induction 1 as [|x l Hs IH Hall]; [constructor|].
  rewrite filter_cons. destruct (decide (P x)); [|done].
  constructor; [done|].
  apply Forall_forall. intros y [_ Hy]%list_elem_of_filter.
  by eapply Forall_forall in Hall.
Qed.

(** The groups under a single identity column come in ascending order of
    the identity. *)
Lemma groupby_ascending (col : string) (df : DataFrame) :
  Sorted (λ kg kg' : list value * list (gmap string value),
            value_le (kg.1 !!! 0%nat) (kg'.1 !!! 0%nat))
         (groupby [col] df).
Proof.
  unfold groupby.
  set (rs := filter _ (rows df)).
  eapply (Sorted_fmap _ (λ k k' : list value, value_le (k !!! 0%nat) (k' !!! 0%nat)));
    [by intros k k'|].
  eapply (Sorted_impl_on label_le _ (λ k, length k = 1%nat)).
  - intros k k' Hk Hk'. by apply label_le_singleton.
  - apply Forall_forall. intros k Hk.
    rewrite merge_sort_Permutation, elem_of_remove_dups in Hk.
    by apply list_elem_of_fmap in Hk as (r & -> & _).
  - apply (Sorted_merge_sort label_le).
Qed.

Lemma receiver_groups_ascending (tdp : DataFrame) groups :
  receiver_groups tdp = Ok groups →
  StronglySorted (λ s s', value_le (rs_player_id s) (rs_player_id s')) groups.
Proof.
  unfold receiver_groups. intros Hg.
  apply bind_Ok in Hg as (tdp' & _ & Hg).
  apply bind_Ok in Hg as (? & _ & Hg). injection Hg as <-.
  do 3 apply StronglySorted_filter.
  apply Sorted_StronglySorted.
  { intros s1 s2 s3. apply value_le_trans. }
  eapply Sorted_fmap; [|apply (groupby_ascending "receiver_player_id")].
  by intros [k g] [k' g'].
Qed.

Lemma rusher_groups_ascending (tdr : DataFrame) groups :
  rusher_groups tdr = Ok groups →
  StronglySorted (λ s s', value_le (ru_player_id s) (ru_player_id s')) groups.
Proof.
  unfold rusher_groups. intros Hg.
  apply bind_Ok in Hg as (? & _ & Hg). injection Hg as <-.
  do 3 apply StronglySorted_filter.
  apply Sorted_StronglySorted.
  { intros s1 s2 s3. apply value_le_trans. }
  eapply Sorted_fmap; [|apply (groupby_ascending "rusher_player_id")].
  by intros [k g] [k' g'].
Qed.

(** ** The player calculator *)

Lemma third_down_inv (play : string) (pbp tdp : DataFrame) :
  third_down play pbp = Ok tdp →
  has_column "down" pbp = true ∧ has_column "play_type" pbp = true
  ∧ tdp = select (λ r, value_eqb (cell "down" r) (VNum 3)
                       && value_eqb (cell "play_type" r) (VStr play)) pbp.
Proof.
  unfold third_down, require.
  destruct (has_column "down" pbp); simpl; [|done].
  destruct (has_column "play_type" pbp); simpl; [|done].
  by intros [= <-].
Qed.

Lemma third_down_Ok (play : string) (pbp : DataFrame) :
  has_column "down" pbp = true → has_column "play_type" pbp = true →
  third_down play pbp
  = Ok (select (λ r, value_eqb (cell "down" r) (VNum 3)
                     && value_eqb (cell "play_type" r) (VStr play)) pbp).
Proof. unfold third_down, require. by intros -> ->. Qed.

Lemma Sorted_take {A} (R : relation A) (n : nat) (l : list A) :
  Sorted R l → Sorted R (take n l).
Proof.
  intros Hs. revert n. induction Hs as [|x l Hs IH Hhd]; intros [|n]; simpl;
    try by constructor.
  constructor; [apply IH|].
  destruct Hhd; destruct n; simpl; by constructor.
Qed.

Lemma length_filter_fmap {A B} (P : B → Prop) `{!∀ y, Decision (P y)}
    (f : A → B) (l : list A) :
  length (filter P (f <$> l)) = length (filter (λ x, P (f x)) l).
Proof.
  induction l as [|x l IH]; [done|].
  rewrite fmap_cons, !filter_cons.
  destruct (decide (P (f x))); cbn [length]; by rewrite IH.
Qed.

(** The plays counted for a player: those with a play id that carry the
    player's (canonical) identity. *)
Lemma groupby_count (col : string) (df : DataFrame) k g :
  (k, g) ∈ groupby [col] df →
  notna (k !!! 0%nat) = true
  ∧ agg_count "play_id" g
    = length (filter (λ r, notna (cell "play_id" r)
                           && bool_decide (canon (cell col r) = k !!! 0%nat))
                     (rows df)).
Proof.
  intros [Hk ->]%elem_of_groupby.
  apply list_elem_of_fmap in Hk as (r0 & -> & [Hl0 _]%list_elem_of_filter).
  unfold labelled, group_label in Hl0. simpl in Hl0.
  rewrite andb_true_r in Hl0. apply Is_true_true in Hl0.
  split; [done|].
  unfold agg_count. rewrite !list_filter_filter. f_equal.
  apply list_filter_iff. intros r. unfold labelled, group_label. simpl.
  rewrite andb_true_r, andb_True, bool_decide_spec. split.
  - by intros [[? [= ?]] _].
  - intros [? Heq]. rewrite Heq. by rewrite Hl0.
Qed.

Lemma backing_third_down (col play : string) (pbp : DataFrame) (id : value) :
  length (filter (λ r, notna (cell "play_id" r)
                       && bool_decide (canon (cell col r) = id))
            (rows (select (λ r, value_eqb (cell "down" r) (VNum 3)
                                && value_eqb (cell "play_type" r) (VStr play))
                          pbp)))
  = backing col play pbp id.
Proof.
  unfold backing, select. simpl. rewrite list_filter_filter. f_equal.
  apply list_filter_iff. intros r. rewrite !andb_True. tauto.
Qed.

Lemma receiver_groups_backing (pbp tdp : DataFrame) groups s :
  third_down "pass" pbp = Ok tdp →
  receiver_groups tdp = Ok groups →
  s ∈ groups →
  (10 ≤ backing "receiver_player_id" "pass" pbp (rs_player_id s))%nat.
Proof.
  intros (_ & _ & ->)%third_down_inv Hg Hs.
  unfold receiver_groups in Hg.
  apply bind_Ok in Hg as (tdp' & Htdp' & Hg).
  apply bind_Ok in Hg as (? & _ & Hg). injection Hg as <-.
  apply list_elem_of_filter in Hs as [_ Hs].
  apply list_elem_of_filter in Hs as [_ Hs].
  apply list_elem_of_filter in Hs as [Hten Hs].
  apply list_elem_of_fmap in Hs as ([k g] & -> & Hkg).
  apply groupby_count in Hkg as [_ Hcount]. simpl in Hten |- *.
  rewrite Hcount in Hten. rewrite <- (backing_third_down _ "pass").
  destruct (has_column "complete_pass" _).
  - by injection Htdp' as <-.
  - apply bind_Ok in Htdp' as (? & _ & Htdp'). injection Htdp' as <-.
    simpl in Hten. rewrite length_filter_fmap in Hten.
    erewrite list_filter_iff; [exact Hten|].
    intros r. simpl. by rewrite !cell_insert_ne.
Qed.

Lemma rusher_groups_backing (pbp tdr : DataFrame) groups s :
  third_down "run" pbp = Ok tdr →
  rusher_groups tdr = Ok groups →
  s ∈ groups →
  (10 ≤ backing "rusher_player_id" "run" pbp (ru_player_id s))%nat.
Proof.
  intros (_ & _ & ->)%third_down_inv Hg Hs.
  unfold rusher_groups in Hg.
  apply bind_Ok in Hg as (? & _ & Hg). injection Hg as <-.
  apply list_elem_of_filter in Hs as [_ Hs].
  apply list_elem_of_filter in Hs as [_ Hs].
  apply list_elem_of_filter in Hs as [Hten Hs].
  apply list_elem_of_fmap in Hs as ([k g] & -> & Hkg).
  apply groupby_count in Hkg as [_ Hcount]. simpl in Hten |- *.
  rewrite Hcount in Hten. by rewrite <- (backing_third_down _ "run").
Qed.

Section PlayerFacts.
Context `{SortValues}.

(** The two ways in which the calculator returns normally. *)
Lemma calculate_player_rates_inv (pbp : DataFrame) (out : list PlayerRate) :
  (calculate_player_rates pbp).2 = Ok out →
  (has_column "receiver_player_id" pbp = false
   ∧ calculate_player_rates pbp = ([WarnNoReceiver], Ok []) ∧ out = [])
  ∨ (has_column "receiver_player_id" pbp = true
     ∧ (calculate_player_rates pbp).1 = []
     ∧ ∃ tdp groups tdr rushers,
         third_down "pass" pbp = Ok tdp
         ∧ receiver_groups tdp = Ok groups
         ∧ third_down "run" pbp = Ok tdr
         ∧ rusher_data tdr = Ok rushers
         ∧ out = (receiver_data
                    (take 50 (sort_values_desc rs_conversion_rate groups))
                  ++ rushers)%list).
Proof.
  unfold calculate_player_rates.
  destruct (third_down "pass" pbp) as [tdp|e] eqn:Etdp; [|done].
  pose proof (third_down_inv _ _ _ Etdp) as (_ & _ & Htdp).
  assert (Hcol : has_column "receiver_player_id" tdp
                 = has_column "receiver_player_id" pbp) by by rewrite Htdp.
  rewrite Hcol. destruct (has_column "receiver_player_id" pbp); simpl.
  - intros Hout. right. split; [done|]. split; [done|].
    unfold receiver_stats in Hout.
    apply bind_Ok in Hout as (stats & Hstats & Hout).
    apply bind_Ok in Hstats as (groups & Hgroups & [= <-]).
    apply bind_Ok in Hout as (tdr & Htdr & Hout).
    apply bind_Ok in Hout as (rushers & Hrushers & [= <-]).
    by exists tdp, groups, tdr, rushers.
  - intros [= <-]. by left.
Qed.

Lemma rusher_data_inv (tdr : DataFrame) (rushers : list PlayerRate) :
  rusher_data tdr = Ok rushers →
  (has_column "rusher_player_id" tdr = false ∧ rushers = [])
  ∨ (has_column "rusher_player_id" tdr = true
     ∧ ∃ groups,
         rusher_groups tdr = Ok groups
         ∧ rushers = rusher_record
                       <$> take 50 (sort_values_desc ru_conversion_rate groups)).
Proof.
  unfold rusher_data. destruct (has_column "rusher_player_id" tdr).
  - intros (groups & Hg & [= <-])%bind_Ok. right. eauto.
  - intros [= <-]. by left.
Qed.

Lemma sorted_cut {A} (by_rate : A → option Q) (l : list A) :
  (length (take 50 (sort_values_desc by_rate l)) ≤ 50)%nat
  ∧ Sorted (rate_desc by_rate) (take 50 (sort_values_desc by_rate l))
  ∧ ∀ x, x ∈ take 50 (sort_values_desc by_rate l) → x ∈ l.
Proof.
  split; [|split].
  - rewrite length_take. lia.
  - apply Sorted_take, sort_values_desc_sorted.
  - intros x Hx. rewrite <- (sort_values_desc_perm by_rate l).
    rewrite <- (take_drop 50 (sort_values_desc by_rate l)).
    apply elem_of_app. by left.
Qed.
End PlayerFacts.

Lemma sort_values_desc_nil `{SortValues} {A} (by_rate : A → option Q) :
  sort_values_desc by_rate [] = [].
Proof. apply Permutation_nil_r. by rewrite sort_values_desc_perm. Qed.

(** C3, as the code has it: the player result is a receiver list followed
    by a rusher list, each obtained by sorting a frame of groups by
    conversion_rate and keeping the first 50 rows.  The groups of each frame
    come in ascending order of player_id (the order in which [groupby] lists
    them), not in the order in which the players first occur in the source.
    Every receiver record is labelled WR and is backed by at least 10
    third-down passes with a play id thrown to that player, every rusher
    record is labelled RB and is backed by at least 10 such runs; each list
    has at most 50 records and is ordered by conversion_rate, larger rates
    first and missing rates last.  This holds for every sort that orders the
    rows; the order of records of equal rate is left to the sort. *)
Theorem player_lists `{SortValues} (pbp : DataFrame) (out : list PlayerRate) :
  (calculate_player_rates pbp).2 = Ok out →
  ∃ (wr : list ReceiverStat) (rb : list RusherStat),
    StronglySorted (λ s s', value_le (rs_player_id s) (rs_player_id s')) wr
    ∧ StronglySorted (λ s s', value_le (ru_player_id s) (ru_player_id s')) rb
    ∧ ∃ receivers rushers,
        receivers = receiver_record
                      <$> take 50 (sort_values_desc rs_conversion_rate wr)
        ∧ rushers = rusher_record
                      <$> take 50 (sort_values_desc ru_conversion_rate rb)
        ∧ out = (receivers ++ rushers)%list
        ∧ Forall (λ r, position r = "WR"
                       ∧ (10 ≤ backing "receiver_player_id" "pass" pbp
                                 (player_id r))%nat)
                 receivers
        ∧ Forall (λ r, position r = "RB"
                       ∧ (10 ≤ backing "rusher_player_id" "run" pbp
                                 (player_id r))%nat)
                 rushers
        ∧ (length receivers ≤ 50)%nat
        ∧ (length rushers ≤ 50)%nat
        ∧ Sorted (rate_desc conversion_rate) receivers
        ∧ Sorted (rate_desc conversion_rate) rushers.
Proof.
  intros [(_ & _ & ->)|(_ & _ & Hrun)]%calculate_player_rates_inv.
  { exists [], []. split; [constructor|]. split; [constructor|].
    exists [], []. rewrite !sort_values_desc_nil.
    repeat split; simpl; try lia; constructor. }
  destruct Hrun as (tdp & groups & tdr & rushers & Htdp & Hgroups & Htdr & Hrush & ->).
  destruct (sorted_cut rs_conversion_rate groups) as (Hlen & Hsorted & Hsub).
  assert (Hwr :
    Forall (λ r, position r = "WR"
                 ∧ (10 ≤ backing "receiver_player_id" "pass" pbp (player_id r))%nat)
           (receiver_record <$> take 50 (sort_values_desc rs_conversion_rate groups))).
  { apply Forall_fmap, Forall_forall. intros s Hs%Hsub. simpl.
    split; [done|]. by eapply receiver_groups_backing. }
  assert (Hwr_sorted :
    Sorted (rate_desc conversion_rate)
           (receiver_record <$> take 50 (sort_values_desc rs_conversion_rate groups))).
  { eapply Sorted_fmap; [|exact Hsorted]. done. }
  apply rusher_data_inv in Hrush as [[_ ->]|(_ & rgroups & Hrg & ->)].
  - exists groups, []. split; [by eapply receiver_groups_ascending|].
    split; [constructor|].
    eexists _, []. rewrite sort_values_desc_nil.
    split; [reflexivity|]. split; [reflexivity|]. split; [reflexivity|].
    split; [done|]. split; [constructor|].
    split; [by rewrite length_fmap|]. split; [simpl; lia|].
    split; [done|constructor].
  - destruct (sorted_cut ru_conversion_rate rgroups) as (Hlen' & Hsorted' & Hsub').
    exists groups, rgroups. split; [by eapply receiver_groups_ascending|].
    split; [by eapply rusher_groups_ascending|].
    eexists _, _.
    split; [reflexivity|]. split; [reflexivity|]. split; [reflexivity|].
    split; [done|]. split.
    { apply Forall_fmap, Forall_forall. intros s Hs%Hsub'. simpl.
      split; [done|]. by eapply rusher_groups_backing. }
    split; [by rewrite length_fmap|]. split; [by rewrite length_fmap|].
    split; [done|]. eapply Sorted_fmap; [|exact Hsorted']. done.
Qed.

Lemma player_lists_witness :
  ∃ (wr : list ReceiverStat) (rb : list RusherStat),
    StronglySorted (λ s s', value_le (rs_player_id s) (rs_player_id s')) wr
    ∧ StronglySorted (λ s s', value_le (ru_player_id s) (ru_player_id s')) rb
    ∧ ∃ receivers rushers,
        receivers = receiver_record
                      <$> take 50 (sort_values_desc (SortValues := kind_stable)
                                     rs_conversion_rate wr)
        ∧ rushers = rusher_record
                      <$> take 50 (sort_values_desc (SortValues := kind_stable)
                                     ru_conversion_rate rb)
        ∧ [ {| player_id := VStr "A"; player_name := VStr "Mr A";
               position := "WR"; conversion_rate := Some (3 # 5)%Q |};
            {| player_id := VStr "B"; player_name := VStr "Mr B";
               position := "WR"; conversion_rate := Some (3 # 5)%Q |};
            {| player_id := VStr "R"; player_name := VStr "Mr R";
               position := "RB"; conversion_rate := Some (1 # 2)%Q |} ]
          = (receivers ++ rushers)%list
        ∧ Forall (λ r, position r = "WR"
                       ∧ (10 ≤ backing "receiver_player_id" "pass" sample_table
                                 (player_id r))%nat)
                 receivers
        ∧ Forall (λ r, position r = "RB"
                       ∧ (10 ≤ backing "rusher_player_id" "run" sample_table
                                 (player_id r))%nat)
                 rushers
        ∧ (length receivers ≤ 50)%nat
        ∧ (length rushers ≤ 50)%nat
        ∧ Sorted (rate_desc conversion_rate) receivers
        ∧ Sorted (rate_desc conversion_rate) rushers.
Proof.
  apply (player_lists (H := kind_stable) sample_table).
  vm_compute. reflexivity.
Defined.

(** On the sample table the receivers A and B have the same conversion
    rate.  B is thrown to first, but the groups reach the sort with A ahead
    of B, and a sort that keeps equal rows in place lists A before B. *)
Lemma player_ties_not_first_seen :
  first_seen (cell "receiver_player_id" <$> rows sample_table)
  = [VStr "B"; VStr "A"; VNull]
  ∧ (third_down "pass" sample_table ≫= receiver_groups)
    = Ok [ {| rs_player_id := VStr "A"; rs_player_name := VStr "Mr A";
              rs_catch_rate := Some (3 # 5)%Q;
              rs_conversion_rate := Some (3 # 5)%Q; rs_targets := 10 |};
           {| rs_player_id := VStr "B"; rs_player_name := VStr "Mr B";
              rs_catch_rate := Some (3 # 5)%Q;
              rs_conversion_rate := Some (3 # 5)%Q; rs_targets := 10 |} ]
  ∧ (@calculate_player_rates kind_stable sample_table).2
    = Ok [ {| player_id := VStr "A"; player_name := VStr "Mr A";
              position := "WR"; conversion_rate := Some (3 # 5)%Q |};
           {| player_id := VStr "B"; player_name := VStr "Mr B";
              position := "WR"; conversion_rate := Some (3 # 5)%Q |};
           {| player_id := VStr "R"; player_name := VStr "Mr R";
              position := "RB"; conversion_rate := Some (1 # 2)%Q |} ].
Proof. repeat split; vm_compute; reflexivity. Qed.

(** C2, as the code has it: when the schema has no receiver_player_id column
    the calculator prints its warning and returns an empty player result,
    whether or not a rusher_player_id column exists; the rusher lines are
    not reached.  When the receiver column exists the result is the receiver
    list followed by the rusher list, and the rusher list is empty when the
    schema has no rusher_player_id column. *)
Theorem player_pipelines `{SortValues} (pbp : DataFrame) :
  (has_column "down" pbp = true →
   has_column "play_type" pbp = true →
   has_column "receiver_player_id" pbp = false →
   calculate_player_rates pbp = ([WarnNoReceiver], Ok []))
  ∧ (∀ out,
       has_column "receiver_player_id" pbp = true →
       (calculate_player_rates pbp).2 = Ok out →
       (calculate_player_rates pbp).1 = []
       ∧ ∃ tdp stats tdr rushers,
           third_down "pass" pbp = Ok tdp
           ∧ receiver_stats tdp = Ok stats
           ∧ third_down "run" pbp = Ok tdr
           ∧ rusher_data tdr = Ok rushers
           ∧ out = (receiver_data stats ++ rushers)%list
           ∧ (has_column "rusher_player_id" pbp = false → rushers = [])).
Proof.
  split.
  - intros Hd Hp Hr. unfold calculate_player_rates.
    rewrite (third_down_Ok _ _ Hd Hp), has_column_select, Hr. done.
  - intros out Hr [(Hr' & _)|(_ & Hlog & Hrun)]%calculate_player_rates_inv;
      [congruence|].
    split; [done|].
    destruct Hrun as (tdp & groups & tdr & rushers & Htdp & Hg & Htdr & Hrush & ->).
    exists tdp, (take 50 (sort_values_desc rs_conversion_rate groups)), tdr, rushers.
    repeat split; try done.
    + unfold receiver_stats. by rewrite Hg.
    + intros Hno. apply third_down_inv in Htdr as (_ & _ & ->).
      apply rusher_data_inv in Hrush as [[_ ->]|[Hyes _]]; [done|].
      rewrite has_column_select in Hyes. congruence.
Qed.

Lemma player_pipelines_witness :
  @calculate_player_rates kind_stable no_receiver_table = ([WarnNoReceiver], Ok [])
  ∧ (@calculate_player_rates kind_stable sample_table).1 = [].
Proof.
  split.
  - apply (proj1 (player_pipelines (H := kind_stable) no_receiver_table));
      reflexivity.
  - apply (proj2 (player_pipelines (H := kind_stable) sample_table)
             [ {| player_id := VStr "A"; player_name := VStr "Mr A";
                  position := "WR"; conversion_rate := Some (3 # 5)%Q |};
               {| player_id := VStr "B"; player_name := VStr "Mr B";
                  position := "WR"; conversion_rate := Some (3 # 5)%Q |};
               {| player_id := VStr "R"; player_name := VStr "Mr R";
                  position := "RB"; conversion_rate := Some (1 # 2)%Q |} ]);
      vm_compute; reflexivity.
Defined.

(** A source without receiver columns but with ten carries by the rusher R:
    the rusher lines alone would list R, the calculator returns nothing. *)
Lemma player_rushers_skipped_without_receivers :
  has_column "receiver_player_id" no_receiver_table = false
  ∧ has_column "rusher_player_id" no_receiver_table = true
  ∧ (third_down "run" no_receiver_table ≫= @rusher_data kind_stable)
    = Ok [ {| player_id := VStr "R"; player_name := VStr "Mr R";
              position := "RB"; conversion_rate := Some (1 # 2)%Q |} ]
  ∧ @calculate_player_rates kind_stable no_receiver_table
    = ([WarnNoReceiver], Ok []).
Proof. repeat split; vm_compute; reflexivity. Qed.

(** ** Season resolution and the run as a whole *)

Section RunFacts.
Context `{SortValues}.
Variable import_pbp_data : Z → res DataFrame.
Variable now : string.

Lemma load_2025 (pbp : DataFrame) :
  import_pbp_data 2025%Z = Ok pbp →
  load_play_by_play_data import_pbp_data
  = (match relevant_plays pbp with
     | Ok p => ([Request 2025; Using2025], Some (p, 2025%Z))
     | Raise e => ([Request 2025; Using2025; ErrorLoading e], None)
     end).
Proof.
  intros E. unfold load_play_by_play_data. rewrite E. simpl.
  by destruct (relevant_plays pbp).
Qed.

Lemma load_2024 (e : exn) :
  import_pbp_data 2025%Z = Raise e →
  load_play_by_play_data import_pbp_data
  = (match import_pbp_data 2024%Z ≫= relevant_plays with
     | Ok p => ([Request 2025; Fallback2024; Request 2024], Some (p, 2024%Z))
     | Raise e' =>
         ([Request 2025; Fallback2024; Request 2024; ErrorLoading e'], None)
     end).
Proof.
  intros E. unfold load_play_by_play_data. rewrite E.
  destruct (import_pbp_data 2024%Z) as [pbp|e']; simpl; [|done].
  by destruct (relevant_plays pbp).
Qed.

Lemma main_load_failure :
  (load_play_by_play_data import_pbp_data).2 = None →
  exit_status (main import_pbp_data now) = 1%Z
  ∧ written (main import_pbp_data now) = None.
Proof.
  unfold main. destruct (load_play_by_play_data import_pbp_data) as [log [[pbp s]|]];
    simpl; [done|]. auto.
Qed.

(** Whatever happens, a document is written exactly when the run ends
    with status 0. *)
Lemma main_written_iff :
  is_Some (written (main import_pbp_data now))
  ↔ exit_status (main import_pbp_data now) = 0%Z.
Proof.
  unfold main, crash.
  destruct (load_play_by_play_data import_pbp_data) as [log [[pbp s]|]]; simpl.
  2: { split; [by intros [? ?]|done]. }
  destruct (calculate_league_rates pbp) as [[l pbp1]|?]; simpl.
  2: { split; [by intros [? ?]|done]. }
  destruct (calculate_team_rates pbp1) as [[t pbp2]|?]; simpl.
  2: { split; [by intros [? ?]|done]. }
  destruct (calculate_field_position_impact pbp2) as [[f pbp3]|?]; simpl.
  2: { split; [by intros [? ?]|done]. }
  destruct (calculate_player_rates pbp3) as [printed [p|?]]; simpl.
  2: { split; [by intros [? ?]|done]. }
  split; eauto.
Qed.
End RunFacts.

(** C7: the loader asks for season 2025 first.  When that request succeeds
    no other season is requested and the run is on 2025.  When it fails, for
    whatever reason, season 2024 is requested next and the run is on 2024.
    When the 2024 request fails as well, nothing is loaded, the run ends with
    exit status 1 and no document is written; more generally a failed load
    always ends the run with exit status 1 before the write. *)
Theorem season_resolution `{SortValues} (import_pbp_data : Z → res DataFrame)
    (now : string) :
  head (load_play_by_play_data import_pbp_data).1 = Some (Request 2025%Z)
  ∧ (∀ pbp,
       import_pbp_data 2025%Z = Ok pbp →
       (Request 2024 ∉ ((load_play_by_play_data import_pbp_data).1))
       ∧ (load_play_by_play_data import_pbp_data).2
         = (λ p, (p, 2025%Z)) <$> succeeded (relevant_plays pbp))
  ∧ (∀ e,
       import_pbp_data 2025%Z = Raise e →
       take 3 (load_play_by_play_data import_pbp_data).1
       = [Request 2025; Fallback2024; Request 2024]
       ∧ (load_play_by_play_data import_pbp_data).2
         = (λ p, (p, 2024%Z))
             <$> succeeded (import_pbp_data 2024%Z ≫= relevant_plays))
  ∧ (∀ e e',
       import_pbp_data 2025%Z = Raise e →
       import_pbp_data 2024%Z = Raise e' →
       (load_play_by_play_data import_pbp_data).2 = None
       ∧ exit_status (main import_pbp_data now) = 1%Z
       ∧ written (main import_pbp_data now) = None)
  ∧ ((load_play_by_play_data import_pbp_data).2 = None →
     exit_status (main import_pbp_data now) = 1%Z
     ∧ written (main import_pbp_data now) = None).
Proof.
  split; [|split; [|split; [|split]]].
  - destruct (import_pbp_data 2025%Z) as [pbp|e] eqn:E.
    + rewrite (load_2025 _ _ E). by destruct (relevant_plays pbp).
    + rewrite (load_2024 _ _ E). by destruct (_ ≫= _).
  - intros pbp E. rewrite (load_2025 _ _ E).
    destruct (relevant_plays pbp); simpl; (split; [|done]);
      rewrite !elem_of_cons, elem_of_nil; intros Hin;
      repeat (destruct Hin as [Hin|Hin]; [discriminate|]); done.
  - intros e E. rewrite (load_2024 _ _ E). by destruct (_ ≫= _).
  - intros e e' E E'.
    assert (Hl : (load_play_by_play_data import_pbp_data).2 = None).
    { rewrite (load_2024 _ _ E), E'. done. }
    split; [done|]. by apply main_load_failure.
  - apply main_load_failure.
Qed.

Lemma season_resolution_witness :
  snd <$> (load_play_by_play_data (provider_of sample_table)).2 = Some 2025%Z
  ∧ snd <$> (load_play_by_play_data (provider_2024_only sample_table)).2
    = Some 2024%Z
  ∧ exit_status (main provider_down "2026-01-01T00:00:00") = 1%Z
  ∧ written (main provider_down "2026-01-01T00:00:00") = None.
Proof.
  split; [|split].
  - pose proof (proj1 (proj2 (season_resolution (provider_of sample_table) ""))
                  sample_table eq_refl) as [_ Hw].
    rewrite Hw. vm_compute. reflexivity.
  - pose proof (proj1 (proj2 (proj2
                  (season_resolution (provider_2024_only sample_table) "")))
                  (FetchError "HTTP Error 404: Not Found") eq_refl) as [_ Hw].
    rewrite Hw. vm_compute. reflexivity.
  - apply (proj1 (proj2 (proj2 (proj2
             (season_resolution provider_down "2026-01-01T00:00:00"))))
             (FetchError "HTTP Error 404: Not Found")
             (FetchError "HTTP Error 404: Not Found")); reflexivity.
Defined.

(** C8: two runs that are given the same data and differ only in the clock
    reading end with the same exit status and the same console output, and
    either both write nothing or write documents that agree on season,
    total_plays, the four result collections and the metadata; only
    generated_at, which is the clock reading, differs. *)
Theorem run_deterministic `{SortValues} (import_pbp_data : Z → res DataFrame)
    (now1 now2 : string) :
  exit_status (main import_pbp_data now1) = exit_status (main import_pbp_data now2)
  ∧ console (main import_pbp_data now1) = console (main import_pbp_data now2)
  ∧ match written (main import_pbp_data now1),
          written (main import_pbp_data now2) with
    | Some d1, Some d2 =>
        generated_at d1 = now1 ∧ generated_at d2 = now2
        ∧ season d1 = season d2
        ∧ total_plays d1 = total_plays d2
        ∧ league_conversion_rates d1 = league_conversion_rates d2
        ∧ team_conversion_rates d1 = team_conversion_rates d2
        ∧ field_position_impact d1 = field_position_impact d2
        ∧ player_success_rates d1 = player_success_rates d2
        ∧ metadata d1 = metadata d2
    | None, None => True
    | _, _ => False
    end.
Proof.
  unfold main, crash.
  destruct (load_play_by_play_data import_pbp_data) as [log [[pbp s]|]]; simpl; [|done].
  destruct (calculate_league_rates pbp) as [[l pbp1]|?]; simpl; [|done].
  destruct (calculate_team_rates pbp1) as [[t pbp2]|?]; simpl; [|done].
  destruct (calculate_field_position_impact pbp2) as [[f pbp3]|?]; simpl; [|done].
  destruct (calculate_player_rates pbp3) as [printed [p|?]]; simpl; [|done].
  repeat split.
Qed.

(** ** The CORS forwarder *)

Lemma string_app_cons (x : ascii) (a b : string) :
  String x a ++ b = String x (a ++ b).
Proof. reflexivity. Qed.

Lemma string_app_assoc (a b c : string) : (a ++ b) ++ c = a ++ (b ++ c).
Proof.
  induction a as [|x a IH]; [reflexivity|].
  by rewrite !string_app_cons, IH.
Qed.

Lemma string_app_length (a b : string) :
  String.length (a ++ b) = (String.length a + String.length b)%nat.
Proof.
  induction a as [|x a IH]; [reflexivity|].
  rewrite string_app_cons. simpl. by rewrite IH.
Qed.

Lemma slice_from_app (a b : string) : slice_from (String.length a) (a ++ b) = b.
Proof. induction a as [|x a IH]; [reflexivity|]. by rewrite string_app_cons. Qed.

(** A prefix test only looks at as many characters as the prefix has. *)
Lemma prefix_app_long (s t c : string) :
  (String.length s ≤ String.length t)%nat →
  String.prefix s (t ++ c) = String.prefix s t.
Proof.
  revert t. induction s as [|x s IH]; intros t Hlen; [by destruct t, c|].
  destruct t as [|y t]; simpl in Hlen; [lia|].
  rewrite string_app_cons. simpl.
  destruct (ascii_dec x y); [|done]. apply IH. lia.
Qed.

Lemma prefix_app_self (sub b : string) : String.prefix sub (sub ++ b) = true.
Proof.
  induction sub as [|y sub IH]; [by destruct b|].
  rewrite string_app_cons. simpl. by destruct (ascii_dec y y).
Qed.

Lemma contains_app_r (sub a b : string) : contains sub (a ++ sub ++ b) = true.
Proof.
  induction a as [|x a IH].
  - change ("" ++ sub ++ b) with (sub ++ b).
    pose proof (prefix_app_self sub b) as Hp.
    destruct (sub ++ b); cbn [contains]; by rewrite Hp.
  - rewrite string_app_cons. simpl. rewrite IH. apply orb_true_r.
Qed.

(** Cutting at ["?url="]: when no occurrence starts inside [pre], the cut
    falls right after [pre]. *)
Lemma split_once_first (pre post : string) :
  contains "?url=" (pre ++ "?url") = false →
  split_once "?url=" (pre ++ "?url=" ++ post) = [pre; post].
Proof.
  induction pre as [|a pre IH]; intros Hno; [by destruct post|].
  change (String a pre ++ "?url") with (String a (pre ++ "?url")) in Hno.
  change (String a pre ++ "?url=" ++ post)
    with (String a (pre ++ "?url=" ++ post)).
  cbn [contains] in Hno. apply orb_false_iff in Hno as [Hp Hno].
  cbn [split_once].
  assert (Hp' : String.prefix "?url=" (String a (pre ++ "?url=" ++ post)) = false).
  { etrans; [|exact Hp].
    change (String a (pre ++ "?url=" ++ post))
      with (String a pre ++ ("?url" ++ ("=" ++ post))).
    rewrite <- string_app_assoc.
    change (String a (pre ++ "?url")) with (String a pre ++ "?url").
    apply prefix_app_long. rewrite string_app_length. simpl. lia. }
  by rewrite Hp', (IH Hno).
Qed.

(** A ["?"] cannot occur before the query string starts, so ["?url="] cannot
    start there either. *)
Lemma no_query_before (base : string) :
  contains "?" base = false → contains "?url=" (base ++ "?url") = false.
Proof.
  induction base as [|a base IH]; intros Hno; [reflexivity|].
  cbn [contains] in Hno. apply orb_false_iff in Hno as [Hp Hno].
  change (String a base ++ "?url") with (String a (base ++ "?url")).
  cbn [contains]. rewrite (IH Hno), orb_false_r.
  cbn [String.prefix] in Hp |- *.
  destruct (ascii_dec "?" a); [|done]. by destruct base.
Qed.

Section ProxyFacts.
Variable unquote : string → string.
Variable urlopen : HttpRequest → string + string.

Lemma do_GET_at_first (pre post : string) :
  contains "?url=" (pre ++ "?url") = false →
  do_GET unquote urlopen (pre ++ "?url=" ++ post)
  = let req := {| url := unquote post;
                  request_headers := [("User-Agent", "Mozilla/5.0")] |} in
    match urlopen req with
    | inl data =>
        ([req],
         {| status := 200;
            headers := (_set_cors_headers ++ [("Content-Type", "application/json")])%list;
            body := data |})
    | inr e =>
        ([req],
         {| status := 500;
            headers := (_set_cors_headers ++ [("Content-Type", "text/plain")])%list;
            body := "Proxy error: " ++ e |})
    end.
Proof.
  intros Hno. unfold do_GET.
  rewrite contains_app_r, (split_once_first _ _ Hno). reflexivity.
Qed.

Lemma do_GET_cors (path : string) :
  _set_cors_headers ⊆ headers (do_GET unquote urlopen path).2.
Proof.
  unfold do_GET.
  destruct (contains _ _); [destruct (urlopen _)|]; cbn [snd headers];
    intros h Hh; apply elem_of_app; by left.
Qed.
End ProxyFacts.

Lemma prefix_slice (a s : string) :
  String.prefix a s = true → s = a ++ slice_from (String.length a) s.
Proof.
  revert s. induction a as [|x a IH]; intros s Hp; [by destruct s|].
  destruct s as [|y s]; [done|]. cbn [String.prefix] in Hp.
  destruct (ascii_dec x y) as [->|]; [|done].
  rewrite string_app_cons. cbn [String.length slice_from]. f_equal. by apply IH.
Qed.

(** A path that contains ["?url="] is cut in one way only at the first
    occurrence. *)
Lemma contains_first (path : string) :
  contains "?url=" path = true →
  ∃ pre post, path = pre ++ "?url=" ++ post
              ∧ contains "?url=" (pre ++ "?url") = false.
Proof.
  induction path as [|a path IH]; intros Hc; [done|].
  cbn [contains] in Hc.
  destruct (String.prefix "?url=" (String a path)) eqn:Hp.
  - exists "", (slice_from 5 (String a path)). split; [|reflexivity].
    by apply (prefix_slice "?url=").
  - simpl in Hc. destruct (IH Hc) as (pre & post & -> & Hno).
    exists (String a pre), post. split; [reflexivity|].
    rewrite string_app_cons. cbn [contains]. rewrite Hno, orb_false_r.
    etrans; [|exact Hp].
    change (String a (pre ++ "?url=" ++ post))
      with (String a pre ++ ("?url" ++ ("=" ++ post))).
    rewrite <- string_app_assoc. symmetry.
    change (String a (pre ++ "?url")) with (String a pre ++ "?url").
    apply prefix_app_long. rewrite string_app_length. simpl. lia.
Qed.

(** C9, as the code has it: a GET whose path contains the literal text
    [?url=] fetches what follows the first occurrence, decoded, with the user
    agent Mozilla/5.0, and answers 200 with the upstream body unchanged, or
    500 with a plain-text error body when the fetch fails; every such path is
    of this form in one way.  A GET whose path does not contain [?url=]
    answers 400 and fetches nothing.  An OPTIONS request answers 200 with an
    empty body.  Each answer carries the four CORS headers (any origin,
    GET/POST/OPTIONS, any header, 3600 s). *)
Theorem forwarder_responses (unquote : string → string)
    (urlopen : HttpRequest → string + string) :
  (∀ pre encoded data,
     contains "?url=" (pre ++ "?url") = false →
     urlopen {| url := unquote encoded;
                request_headers := [("User-Agent", "Mozilla/5.0")] |} = inl data →
     do_GET unquote urlopen (pre ++ "?url=" ++ encoded)
     = ([{| url := unquote encoded;
            request_headers := [("User-Agent", "Mozilla/5.0")] |}],
        {| status := 200;
           headers := (_set_cors_headers ++ [("Content-Type", "application/json")])%list;
           body := data |}))
  ∧ (∀ pre encoded e,
       contains "?url=" (pre ++ "?url") = false →
       urlopen {| url := unquote encoded;
                  request_headers := [("User-Agent", "Mozilla/5.0")] |} = inr e →
       do_GET unquote urlopen (pre ++ "?url=" ++ encoded)
       = ([{| url := unquote encoded;
              request_headers := [("User-Agent", "Mozilla/5.0")] |}],
          {| status := 500;
             headers := (_set_cors_headers ++ [("Content-Type", "text/plain")])%list;
             body := "Proxy error: " ++ e |}))
  ∧ (∀ path,
       contains "?url=" path = true →
       ∃ pre encoded, path = pre ++ "?url=" ++ encoded
                      ∧ contains "?url=" (pre ++ "?url") = false)
  ∧ (∀ base, contains "?" base = false →
             contains "?url=" (base ++ "?url") = false)
  ∧ (∀ path,
       contains "?url=" path = false →
       do_GET unquote urlopen path
       = ([], {| status := 400;
                 headers := (_set_cors_headers ++ [("Content-Type", "text/plain")])%list;
                 body := "Missing 'url' parameter" |}))
  ∧ do_OPTIONS = {| status := 200; headers := _set_cors_headers; body := "" |}
  ∧ (∀ path, _set_cors_headers ⊆ headers (do_GET unquote urlopen path).2)
  ∧ _set_cors_headers
    = [("Access-Control-Allow-Origin", "*");
       ("Access-Control-Allow-Methods", "GET, POST, OPTIONS");
       ("Access-Control-Allow-Headers", "*");
       ("Access-Control-Max-Age", "3600")].
Proof.
  split; [|split; [|split; [|split; [|split; [|split; [|split]]]]]].
  - intros pre encoded data Hb Hu.
    rewrite do_GET_at_first by done. simpl. by rewrite Hu.
  - intros pre encoded e Hb Hu.
    rewrite do_GET_at_first by done. simpl. by rewrite Hu.
  - apply contains_first.
  - apply no_query_before.
  - intros path Hno. unfold do_GET. by rewrite Hno.
  - reflexivity.
  - apply do_GET_cors.
  - reflexivity.
Qed.

Lemma forwarder_responses_witness :
  do_GET (λ s, s) upstream_ok "/?url=https://site.example/api"
  = ([{| url := "https://site.example/api";
         request_headers := [("User-Agent", "Mozilla/5.0")] |}],
     {| status := 200;
        headers := (_set_cors_headers ++ [("Content-Type", "application/json")])%list;
        body := "{}" |})
  ∧ (do_GET (λ s, s) upstream_down "/x?q=?url=https://site.example/api").2
    = {| status := 500;
         headers := (_set_cors_headers ++ [("Content-Type", "text/plain")])%list;
         body := "Proxy error: <urlopen error timed out>" |}
  ∧ status (do_GET (λ s, s) upstream_ok "/scoreboard").2 = 400%Z.
Proof.
  split; [|split].
  - apply (proj1 (forwarder_responses (λ s, s) upstream_ok)
             "/" "https://site.example/api" "{}"); reflexivity.
  - exact (f_equal snd
             (proj1 (proj2 (forwarder_responses (λ s, s) upstream_down))
                "/x?q=" "https://site.example/api" "<urlopen error timed out>"
                eq_refl eq_refl)).
  - exact (f_equal (λ p, status p.2)
             (proj1 (proj2 (proj2 (proj2 (proj2
                (forwarder_responses (λ s, s) upstream_ok)))))
                "/scoreboard" eq_refl)).
Defined.

(** Two requests on which the handler and the reading of a query string part
    ways: the first has a [url] parameter, after another parameter, and is
    answered 400 with nothing fetched; the second has no [url] parameter,
    only the text [?url=] inside the value of [q], and is fetched. *)
Lemma forwarder_misreads_query :
  query_parameter "url" "/?a=1&url=https://x" = Some "https://x"
  ∧ do_GET (λ s, s) upstream_ok "/?a=1&url=https://x"
    = ([], {| status := 400;
              headers := (_set_cors_headers ++ [("Content-Type", "text/plain")])%list;
              body := "Missing 'url' parameter" |})
  ∧ query_parameter "url" "/x?q=?url=zzz" = None
  ∧ do_GET (λ s, s) upstream_ok "/x?q=?url=zzz"
    = ([{| url := "zzz"; request_headers := [("User-Agent", "Mozilla/5.0")] |}],
       {| status := 200;
          headers := (_set_cors_headers ++ [("Content-Type", "application/json")])%list;
          body := "{}" |}).
Proof. repeat split; vm_compute; reflexivity. Qed.

(** C10: the forwarder looks for the literal text [?url=] in the request
    path.  Without it the answer is 400 and nothing is fetched, also when a
    [url] parameter follows another parameter, as in [/?a=1&url=https://x].
    With it, the path is cut at the first occurrence and everything after
    the cut, decoded, is the upstream URL, later [&]-separated parameters
    (and later occurrences of [?url=]) included. *)
Theorem forwarder_url_parameter (unquote : string → string)
    (urlopen : HttpRequest → string + string) :
  (∀ path,
     contains "?url=" path = false →
     do_GET unquote urlopen path
     = ([], {| status := 400;
               headers := (_set_cors_headers ++ [("Content-Type", "text/plain")])%list;
               body := "Missing 'url' parameter" |}))
  ∧ (∀ path,
       contains "?url=" path = true →
       status (do_GET unquote urlopen path).2 ≠ 400%Z
       ∧ length (do_GET unquote urlopen path).1 = 1%nat)
  ∧ (∀ pre post,
       contains "?url=" (pre ++ "?url") = false →
       (do_GET unquote urlopen (pre ++ "?url=" ++ post)).1
       = [{| url := unquote post;
             request_headers := [("User-Agent", "Mozilla/5.0")] |}])
  ∧ do_GET unquote urlopen "/?a=1&url=https://x"
    = ([], {| status := 400;
              headers := (_set_cors_headers ++ [("Content-Type", "text/plain")])%list;
              body := "Missing 'url' parameter" |})
  ∧ (do_GET unquote urlopen "/?url=https://x/y?a=1&b=2&c=?url=z").1
    = [{| url := unquote "https://x/y?a=1&b=2&c=?url=z";
          request_headers := [("User-Agent", "Mozilla/5.0")] |}].
Proof.
  split; [|split; [|split; [|split]]].
  - intros path Hno. unfold do_GET. by rewrite Hno.
  - intros path Hyes. unfold do_GET. rewrite Hyes.
    by destruct (urlopen _).
  - intros pre post Hno. rewrite do_GET_at_first by done.
    simpl. by destruct (urlopen _).
  - reflexivity.
  - unfold do_GET.
    change (contains "?url=" "/?url=https://x/y?a=1&b=2&c=?url=z") with true.
    change (split_once "?url=" "/?url=https://x/y?a=1&b=2&c=?url=z" !!! 1%nat)
      with "https://x/y?a=1&b=2&c=?url=z".
    cbv iota. by destruct (urlopen _).
Qed.

Lemma forwarder_url_parameter_witness :
  status (do_GET (λ s, s) upstream_ok "/espn?x=1&url=https://site.example").2 = 400%Z
  ∧ (do_GET (λ s, s) upstream_ok "/espn?url=https://site.example/a?b=1&c=2").1
    = [{| url := "https://site.example/a?b=1&c=2";
          request_headers := [("User-Agent", "Mozilla/5.0")] |}]
  ∧ status (do_GET (λ s, s) upstream_ok "/espn?url=https://site.example").2 ≠ 400%Z.
Proof.
  pose proof (forwarder_url_parameter (λ s, s) upstream_ok) as (H400 & Hyes & Hcut & _).
  split; [|split].
  - exact (f_equal (λ p, status p.2)
             (H400 "/espn?x=1&url=https://site.example" eq_refl)).
  - apply (Hcut "/espn" "https://site.example/a?b=1&c=2"). reflexivity.
  - apply (Hyes "/espn?url=https://site.example"). reflexivity.
Defined.

(** * Further properties of the code *)

(** ** Bucket boundaries between the whole numbers *)




(** ** What the loader hands to the calculators *)








(** ** What a league record aggregates *)










(** ** The touchdown default of the field-position calculator *)



(** ** The outcome of a run *)



